(** * niceshare: rectangle parsing and gstreamer pipeline assembly

    A shallow embedding of [niceshare.py].  Python [str] values are lists of
    characters; a character is an [ascii], i.e. a code point below 256.  On
    that range the regular-expression class [\d] is exactly ['0'..'9'], so the
    regex and [int()] below are the ones of the source restricted to Latin-1
    text.  Python [int] is [Z]; a conversion between [int] and decimal text
    is refused with a [ValueError] beyond [int_max_str_digits] digits, the
    interpreter's default limit.  A call that can raise returns a
    [pyresult]. *)

From Stdlib Require Import List Ascii String ZArith Lia Bool.
Import ListNotations.
Open Scope string_scope.
Open Scope list_scope.
Open Scope Z_scope.

(** ** Strings *)

Definition str := list ascii.

Coercion list_ascii_of_string : string >-> list.

Definition dquote : ascii := ascii_of_nat 34.

(** ** Exceptions *)

Inductive exn : Type :=
| TypeError
| ValueError
| IndexError
| UnboundLocalError
| gaierror.

Inductive pyresult (A : Type) : Type :=
| Ok (a : A)
| Raise (e : exn).

Arguments Ok {A} a.
Arguments Raise {A} e.

Definition bind {A B : Type} (m : pyresult A) (k : A -> pyresult B) : pyresult B :=
  match m with
  | Ok a => k a
  | Raise e => Raise e
  end.

Notation "x <- m ;; k" := (bind m (fun x => k))
  (at level 61, m at next level, right associativity).

(** ** Decimal digits, [int()] and [str()] of an integer *)

Definition is_digit (c : ascii) : bool :=
  (48 <=? Z.of_N (N_of_ascii c)) && (Z.of_N (N_of_ascii c) <=? 57).

Definition digit_val (c : ascii) : Z := Z.of_N (N_of_ascii c) - 48.

Definition digit_char (d : Z) : ascii := ascii_of_N (Z.to_N (48 + d)).

Definition int_digits (s : str) : Z :=
  fold_left (fun acc c => 10 * acc + digit_val c) s 0.

(** [sys.get_int_max_str_digits()], at its default. *)
Definition int_max_str_digits : nat := 4300.

(** [int(s)] on the strings the program passes to it: a run of decimal
    digits.  Anything else is a [ValueError] here (signs, blanks and
    underscores, which [int()] also reads, never reach it: the only callers
    pass groups matched by [\d+]).  A run of more than [int_max_str_digits]
    digits, leading zeros counted, is a [ValueError] too. *)
Definition int (s : str) : pyresult Z :=
  match s with
  | [] => Raise ValueError
  | _ :: _ =>
      if forallb is_digit s then
        if (List.length s <=? int_max_str_digits)%nat then Ok (int_digits s)
        else Raise ValueError
      else Raise ValueError
  end.

Fixpoint str_of_nonneg_aux (fuel : nat) (n : Z) (acc : str) : str :=
  match fuel with
  | O => acc
  | S fuel' =>
      let acc' := digit_char (n mod 10) :: acc in
      if n / 10 =? 0 then acc' else str_of_nonneg_aux fuel' (n / 10) acc'
  end.

Definition str_of_nonneg (n : Z) : str :=
  str_of_nonneg_aux (S (Z.to_nat (Z.log2 n))) n [].

(** The decimal text of [n]: what [str(n)] returns when it returns. *)
Definition str_of_int (n : Z) : str :=
  if n <? 0 then "-" ++ str_of_nonneg (- n) else str_of_nonneg n.

(** [n] has at most [int_max_str_digits] decimal digits, the sign apart. *)
Definition fits (n : Z) : bool :=
  Z.abs n <? 10 ^ Z.of_nat int_max_str_digits.

(** [str(n)], which is also what [f'{n}'] formats: a [ValueError] when [n]
    has more than [int_max_str_digits] digits. *)
Definition format_int (n : Z) : pyresult str :=
  if fits n then Ok (str_of_int n) else Raise ValueError.

(** ** The regular expression [(\d+)x(\d+)\+(\d+),(\d+)]

    Only two kinds of item occur in the pattern: a literal character and the
    capturing group [(\d+)].  [re_match] is [re.match]: anchored at the start
    of the string, not at its end, greedy with backtracking. *)

Inductive re_item : Type :=
| Lit (c : ascii)
| DigitsGroup.

(** [\d+] followed by the continuation [k]: take one more digit first, and
    stop after the current one only when the longer attempts fail. *)
Fixpoint digits_plus {A : Type} (k : str -> str -> option A)
    (acc s : str) : option A :=
  match s with
  | [] => None
  | c :: s' =>
      if is_digit c then
        match digits_plus k (acc ++ [c]) s' with
        | Some r => Some r
        | None => k (acc ++ [c]) s'
        end
      else None
  end.

Fixpoint re_match (p : list re_item) (s : str) : option (list str) :=
  match p with
  | [] => Some []
  | Lit c :: p' =>
      match s with
      | [] => None
      | c' :: s' => if Ascii.eqb c c' then re_match p' s' else None
      end
  | DigitsGroup :: p' =>
      digits_plus
        (fun g rest => option_map (cons g) (re_match p' rest)) [] s
  end.

Definition screenshare_argument_regex : list re_item :=
  [DigitsGroup; Lit "x"; DigitsGroup; Lit "+"; DigitsGroup; Lit ","; DigitsGroup].

(** [m.group(i)] for [i >= 1]. *)
Definition group (m : list str) (i : nat) : pyresult str :=
  match nth_error m (Nat.pred i) with
  | Some g => Ok g
  | None => Raise IndexError
  end.

Definition rectangle : Type := Z * Z * Z * Z.

(** Returns (w, h, x, y) on success, None on failure. *)
Definition parse_screenshare_argument (screenshare_arg : str)
  : pyresult (option rectangle) :=
  match re_match screenshare_argument_regex screenshare_arg with
  | None => Ok None
  | Some m =>
      g1 <- group m 1 ;; w <- int g1 ;;
      g2 <- group m 2 ;; h <- int g2 ;;
      g3 <- group m 3 ;; x <- int g3 ;;
      g4 <- group m 4 ;; y <- int g4 ;;
      Ok (Some (w, h, x, y))
  end.

(** ** Display geometry strings

    The numbers of a display geometry and of a video mode are C [int]s of
    wxWidgets, ten digits at most: formatting them never reaches the limit
    on digits, and the two strings are given as plain text. *)

Record Rect : Type := { Width : Z; Height : Z; X : Z; Y : Z }.

Record VideoMode : Type := { mode_Width : Z; mode_Height : Z }.

Definition geometry_string (g : Rect) : str :=
  str_of_int (Width g) ++ "x" ++ str_of_int (Height g) ++ "+"
    ++ str_of_int (X g) ++ "," ++ str_of_int (Y g).

Definition list_screen_sizes (geometries : list Rect) : list str :=
  map geometry_string geometries.

Definition get_all_screens_size (all_screens_mode : VideoMode) : str :=
  let all_w := mode_Width all_screens_mode in
  let all_h := mode_Height all_screens_mode in
  str_of_int all_w ++ "x" ++ str_of_int all_h ++ ",0+0".

(** ** String helpers of the Python library used by [main] *)

(** [sep.join(l)] *)
Fixpoint join (sep : str) (l : list str) : str :=
  match l with
  | [] => []
  | [s] => s
  | s :: l' => s ++ sep ++ join sep l'
  end.

Definition concat_lists {A : Type} (list_of_lists : list (list A)) : list A :=
  List.concat list_of_lists.

(** [s.split(sep)] for a one-character separator. *)
Fixpoint split (sep : ascii) (s : str) : list str :=
  match s with
  | [] => [[]]
  | c :: s' =>
      if Ascii.eqb c sep then [] :: split sep s'
      else match split sep s' with
           | cur :: rest => (c :: cur) :: rest
           | [] => [[c]]
           end
  end.

Fixpoint startswith (s prefix : str) {struct prefix} : bool :=
  match prefix, s with
  | [], _ => true
  | _ :: _, [] => false
  | p :: prefix', c :: s' => Ascii.eqb p c && startswith s' prefix'
  end.

(** [sub in s] *)
Fixpoint contains (s sub : str) : bool :=
  startswith s sub ||
  match s with
  | [] => false
  | _ :: s' => contains s' sub
  end.

Definition str_eqb (a b : str) : bool :=
  if list_eq_dec ascii_dec a b then true else false.

(** [s.replace(c, by)] for a one-character pattern. *)
Definition replace (c : ascii) (by_ : str) (s : str) : str :=
  flat_map (fun a => if Ascii.eqb a c then by_ else [a]) s.

Definition in_range (lo hi : Z) (c : ascii) : bool :=
  (lo <=? Z.of_N (N_of_ascii c)) && (Z.of_N (N_of_ascii c) <=? hi).

(** The characters [shlex.quote] leaves alone: [[\w@%+=:,./-]], ASCII. *)
Definition shell_safe (c : ascii) : bool :=
  in_range 97 122 c || in_range 65 90 c || in_range 48 57 c
  || existsb (Ascii.eqb c) ("_@%+=:,./-" : str).

Definition shlex_quote (s : str) : str :=
  match s with
  | [] => "''"
  | _ :: _ =>
      if forallb shell_safe s then s
      else "'" ++ replace "'" ("'" ++ [dquote] ++ "'" ++ [dquote] ++ "'") s ++ "'"
  end.

Definition nl : str := [ascii_of_nat 10].

(** ** The parsed command line *)

Record Namespace : Type := {
  listen_port : option str;
  call : option str;
  view : bool;
  screenshare : option str;
  screenshare_rectangle : option str;
  bitrate : Z;
  fec : bool;
  latency : Z;
  fps : Z;
  passphrase : option str;
  print_command : bool
}.

(** Truth value of an optional string: [None] and [''] are false. *)
Definition truthy (o : option str) : bool :=
  match o with
  | Some (_ :: _) => true
  | _ => false
  end.

(** Reading a local variable that may not have been assigned. *)
Definition read_local {A : Type} (v : option A) : pyresult A :=
  match v with
  | Some a => Ok a
  | None => Raise UnboundLocalError
  end.

(** What a run of [main] does: the lines it prints and, when the command is
    executed, the command together with the return code of the child. *)
Record outcome : Type := {
  printed : list str;
  child : option (str * Z)
}.

(** Exit status of the interpreter: 0 when [main] returns, 1 when an
    exception escapes it. *)
Definition exit_status (r : pyresult outcome) : Z :=
  match r with
  | Ok _ => 0
  | Raise _ => 1
  end.

Definition nix_path : str :=
  "NIX_PATH=nixpkgs=https://github.com/nh2/nixpkgs/archive/6dc03726f61868c0b8020e9ca98ac71972528d8f.tar.gz".

Section Main.

(** [socket.gethostbyname] and the return code of the shell started by
    [subprocess.run(command, shell=True)]. *)
Variable gethostbyname : str -> pyresult str.
Variable run_shell : str -> Z.

(** Lines 141-146: the local [uri], unassigned when neither option is
    truthy. *)
Definition resolve_uri (args : Namespace) : pyresult (option str) :=
  if truthy (listen_port args) then
    match listen_port args with
    | Some p => Ok (Some ("srt://:" ++ p))
    | None => Ok None
    end
  else if truthy (call args) then
    match call args with
    | Some target =>
        match split ":" target with
        | [hostname; port] =>
            ip <- gethostbyname hostname ;;
            Ok (Some ("srt://" ++ ip ++ ":" ++ port))
        | _ => Raise ValueError
        end
    | None => Ok None
    end
  else Ok None.

(** Lines 150-151. *)
Definition effective_screenshare (args : Namespace) : option str :=
  if truthy (screenshare_rectangle args) then screenshare_rectangle args
  else screenshare args.

Definition passphrase_args (args : Namespace) : list str :=
  if truthy (passphrase args) then
    match passphrase args with
    | Some p => ["passphrase=" ++ p]
    | None => []
    end
  else [].

Definition ximagesrc_stage (startx endx starty endy : Z) : pyresult str :=
  sx <- format_int startx ;; ex <- format_int endx ;;
  sy <- format_int starty ;; ey <- format_int endy ;;
  Ok ("ximagesrc startx=" ++ sx ++ " endx=" ++ ex
        ++ " starty=" ++ sy ++ " endy=" ++ ey
        ++ " show-pointer=true use-damage=0").

Definition x264enc_stage (args : Namespace) : pyresult str :=
  b <- format_int (bitrate args) ;;
  Ok ("! x264enc tune=zerolatency speed-preset=fast bitrate=" ++ b
        ++ " threads=1 byte-stream=true key-int-max=60 intra-refresh=true").

Definition caps_stage (args : Namespace) : pyresult str :=
  f <- format_int (fps args) ;;
  Ok ("! video/x-h264, profile=baseline, framerate=" ++ f ++ "/1").

Definition srtsink_stage (uri : str) (args : Namespace) : pyresult str :=
  l <- format_int (latency args) ;;
  Ok ("! srtsink uri=" ++ uri ++ " latency=" ++ l ++ " "
        ++ join " " (concat_lists [
             if fec args
             then ["packetfilter=fec,cols:3,rows:-3,layout:staircase,arq:always" : str]
             else [];
             passphrase_args args ])).

Definition srtsrc_stage (uri : str) (args : Namespace) : str :=
  "srtsrc uri=" ++ uri ++ " "
    ++ join " " (concat_lists [
         if fec args then ["packetfilter=fec" : str] else [];
         passphrase_args args ]).

(** Lines 153-185: the list [gst_launch_args], its entries evaluated in
    order.  [uri] is the local variable of lines 141-146; it is read only at
    the sink or source stage, after the stages before it have been formatted.
    The second test, [args.view is not None], holds for either value of the
    flag, so the view pipeline is built whenever [args.screenshare] is
    [None]. *)
Definition build_gst_launch_args (uri : option str) (args : Namespace)
  : pyresult (list str) :=
  match effective_screenshare args with
  | Some arg =>
      r <- parse_screenshare_argument arg ;;
      match r with
      | None => Raise TypeError
      | Some (width, height, startx, starty) =>
          let endx := startx + width - 1 in
          let endy := starty + height - 1 in
          source <- ximagesrc_stage startx endx starty endy ;;
          encoder <- x264enc_stage args ;;
          caps <- caps_stage args ;;
          u <- read_local uri ;;
          sink <- srtsink_stage u args ;;
          Ok [ "gst-launch-1.0" : str;
               source;
               "! queue" : str;
               "! videoconvert" : str;
               "! clockoverlay" : str;
               encoder;
               caps;
               "! mpegtsmux" : str;
               "! queue" : str;
               sink ]
      end
  | None =>
      u <- read_local uri ;;
      Ok [ "gst-launch-1.0" : str;
           srtsrc_stage u args;
           "! queue" : str;
           "! tsdemux" : str;
           "! h264parse" : str;
           "! video/x-h264" : str;
           "! avdec_h264" : str;
           "! autovideosink sync=false" : str ]
  end.

Definition compose_command (gst_launch_args : list str) : str :=
  let quoted_in_nix_shell_command := shlex_quote (join " " gst_launch_args) in
  join " " [
    nix_path;
    "nix-shell" : str;
    "-p gst_all_1.gstreamer" : str;
    "-p gst_all_1.gst-plugins-good" : str;
    "-p gst_all_1.gst-plugins-base" : str;
    "-p gst_all_1.gst-plugins-bad" : str;
    "-p gst_all_1.gst-plugins-ugly" : str;
    "-p gst_all_1.gst-libav" : str;
    "--run " ++ quoted_in_nix_shell_command ].

Definition cli_flags (argv : list str) : str :=
  join " " (filter
    (fun a => negb (existsb (str_eqb a)
                      ["--ignore-gooey" : str; "--print-command" : str]))
    argv).

(** Lines 141-185 together: [gst_launch_args] for a command line. *)
Definition pipeline (args : Namespace) : pyresult (list str) :=
  uri <- resolve_uri args ;;
  build_gst_launch_args uri args.

Definition main (argv : list str) (args : Namespace) : pyresult outcome :=
  gst_launch_args <- pipeline args ;;
  let command := compose_command gst_launch_args in
  let out :=
    [ nl ++ "Your CLI flags:" ++ nl ++ nl ++ cli_flags argv ++ nl;
      nl ++ "Your gstreamer invocation:" ++ nl ++ nl ++ command ++ nl ] in
  if negb (print_command args)
  then Ok {| printed := out; child := Some (command, run_shell command) |}
  else Ok {| printed := out; child := None |}.

End Main.

(** ** The rectangle syntax, read off the format string *)

Definition digit_run (d : str) : Prop :=
  d <> [] /\ forallb is_digit d = true.

(** [WIDTHxHEIGHT+OFFSETX,OFFSETY], nothing before and nothing after. *)
Definition rectangle_syntax (s : str) : Prop :=
  exists dw dh dx dy,
    digit_run dw /\ digit_run dh /\ digit_run dx /\ digit_run dy /\
    s = dw ++ "x" ++ dh ++ "+" ++ dx ++ "," ++ dy.

Definition has_rectangle_prefix (s : str) : Prop :=
  exists p rest, rectangle_syntax p /\ s = p ++ rest.

Definition format_rectangle (w h x y : Z) : str :=
  str_of_int w ++ "x" ++ str_of_int h ++ "+" ++ str_of_int x ++ "," ++ str_of_int y.

(** The expression [f"{w}x{h}+{x},{y}"], evaluated. *)
Definition fstring_rectangle (w h x y : Z) : pyresult str :=
  sw <- format_int w ;; sh <- format_int h ;;
  sx <- format_int x ;; sy <- format_int y ;;
  Ok (sw ++ "x" ++ sh ++ "+" ++ sx ++ "," ++ sy).

(** A sample command line: [--listen-port 5000 --screenshare-rectangle r]. *)
Definition listen_5000 (rect : option str) : Namespace :=
  {| listen_port := Some ("5000" : str); call := None; view := false;
     screenshare := None; screenshare_rectangle := rect;
     bitrate := 2048; fec := false; latency := 1000; fps := 30;
     passphrase := None; print_command := false |}.

(** [--listen-port 5000 --screenshare-all] on a display whose current mode
    is [m]: the option stores [get_all_screens_size()] in [args.screenshare]
    (lines 82-87). *)
Definition listen_5000_screenshare_all (m : VideoMode) : Namespace :=
  {| listen_port := Some ("5000" : str); call := None; view := false;
     screenshare := Some (get_all_screens_size m); screenshare_rectangle := None;
     bitrate := 2048; fec := false; latency := 1000; fps := 30;
     passphrase := None; print_command := false |}.

(** [--listen-port port --view]. *)
Definition listen_view (port : str) : Namespace :=
  {| listen_port := Some port; call := None; view := true;
     screenshare := None; screenshare_rectangle := None;
     bitrate := 2048; fec := false; latency := 1000; fps := 30;
     passphrase := None; print_command := false |}.

Definition with_passphrase (p : option str) (args : Namespace) : Namespace :=
  {| listen_port := listen_port args; call := call args; view := view args;
     screenshare := screenshare args;
     screenshare_rectangle := screenshare_rectangle args;
     bitrate := bitrate args; fec := fec args; latency := latency args;
     fps := fps args; passphrase := p; print_command := print_command args |}.

(** [--call target --view --fec --passphrase secret]. *)
Definition call_view (target : str) : Namespace :=
  {| listen_port := None; call := Some target; view := true;
     screenshare := None; screenshare_rectangle := None;
     bitrate := 2048; fec := true; latency := 1000; fps := 30;
     passphrase := Some ("secret" : str); print_command := false |}.

Definition no_dns : str -> pyresult str := fun _ => Raise gaierror.

(** A resolver that knows one host. *)
Definition sample_dns (hostname : str) : pyresult str :=
  if str_eqb hostname "example.org" then Ok ("203.0.113.5" : str)
  else Raise gaierror.

(** [sub] occurs in [s]: the meaning of [sub in s]. *)
Definition occurs (sub s : str) : Prop :=
  exists a b, s = a ++ sub ++ b.

(** The language of a pattern: [matches p s gs rest] when a prefix of [s]
    matches [p] with captured groups [gs] and [rest] is what follows it. *)
Inductive matches : list re_item -> str -> list str -> str -> Prop :=
| matches_nil (s : str) : matches [] s [] s
| matches_lit (c : ascii) (p : list re_item) (s : str) (gs : list str) (rest : str) :
    matches p s gs rest -> matches (Lit c :: p) (c :: s) gs rest
| matches_digits (p : list re_item) (ds s : str) (gs : list str) (rest : str) :
    digit_run ds -> matches p s gs rest ->
    matches (DigitsGroup :: p) (ds ++ s) (ds :: gs) rest.

Definition no_leading_digit (s : str) : bool :=
  match s with
  | [] => true
  | c :: _ => negb (is_digit c)
  end.

(** The two optional parameters of the network stage, as they are written
    into the stage string. *)
Definition fec_parameter : str := "packetfilter=fec".
Definition passphrase_parameter : str := "passphrase=".

(** What the omission rule asks of the network stage [stage] built for the
    URI [u] and the options [args]. *)
Definition optional_arguments_rule (u : str) (args : Namespace) (stage : str) : Prop :=
  (fec args = false -> truthy (passphrase args) = false ->
   contains u fec_parameter = false -> contains u passphrase_parameter = false ->
   contains stage fec_parameter = false /\
   contains stage passphrase_parameter = false) /\
  (fec args = true -> contains stage fec_parameter = true) /\
  (forall p, passphrase args = Some p -> p <> [] ->
             exists pre, stage = pre ++ " " ++ passphrase_parameter ++ p).


Definition with_print_command (b : bool) (args : Namespace) : Namespace :=
  {| listen_port := listen_port args; call := call args; view := view args;
     screenshare := screenshare args;
     screenshare_rectangle := screenshare_rectangle args;
     bitrate := bitrate args; fec := fec args; latency := latency args;
     fps := fps args; passphrase := passphrase args; print_command := b |}.

(** [--listen-port 5000 --screenshare-screen-i] for a display of geometry
    [g]: the option stores the display's string in [args.screenshare]
    (lines 76-81). *)
Definition listen_5000_screen (g : Rect) : Namespace :=
  {| listen_port := Some ("5000" : str); call := None; view := false;
     screenshare := Some (geometry_string g); screenshare_rectangle := None;
     bitrate := 2048; fec := false; latency := 1000; fps := 30;
     passphrase := None; print_command := false |}.

(** No single quote in [s]. *)
Definition quote_free (s : str) : Prop :=
  existsb (Ascii.eqb "'") s = false.

(** * Proofs *)

(** ** Decimal digits *)

Lemma digit_char_spec (d : Z) :
  0 <= d < 10 -> is_digit (digit_char d) = true /\ digit_val (digit_char d) = d.
Proof.
  intros Hd.
  assert (Hc : d = 0 \/ d = 1 \/ d = 2 \/ d = 3 \/ d = 4 \/
               d = 5 \/ d = 6 \/ d = 7 \/ d = 8 \/ d = 9) by lia.
  repeat (destruct Hc as [-> | Hc]; [vm_compute; split; reflexivity |]).
  subst d. vm_compute. split; reflexivity.
Qed.

Lemma int_digits_snoc (ds : str) (c : ascii) :
  int_digits (ds ++ [c]) = 10 * int_digits ds + digit_val c.
Proof.
  unfold int_digits. rewrite fold_left_app. reflexivity.
Qed.

Lemma is_digit_val_range (c : ascii) :
  is_digit c = true -> 0 <= digit_val c < 10.
Proof.
  unfold is_digit, digit_val. intros H.
  apply andb_true_iff in H. destruct H as [H1 H2].
  apply Z.leb_le in H1. apply Z.leb_le in H2. lia.
Qed.

Lemma int_digits_nonneg (ds : str) :
  forallb is_digit ds = true -> 0 <= int_digits ds.
Proof.
  induction ds as [| c ds IH] using rev_ind; intros H.
  - unfold int_digits. simpl. lia.
  - rewrite forallb_app in H. apply andb_true_iff in H. destruct H as [H1 H2].
    simpl in H2. rewrite andb_true_r in H2.
    rewrite int_digits_snoc.
    pose proof (is_digit_val_range c H2). specialize (IH H1). lia.
Qed.

Lemma str_of_nonneg_aux_S (fuel : nat) (n : Z) (acc : str) :
  str_of_nonneg_aux (S fuel) n acc =
  if n / 10 =? 0 then digit_char (n mod 10) :: acc
  else str_of_nonneg_aux fuel (n / 10) (digit_char (n mod 10) :: acc).
Proof. reflexivity. Qed.

Lemma str_of_nonneg_aux_spec (fuel : nat) :
  forall (n : Z) (acc : str),
    0 <= n -> n < 2 ^ Z.of_nat (S fuel) ->
    exists ds, str_of_nonneg_aux (S fuel) n acc = ds ++ acc /\ digit_run ds /\
               int_digits ds = n.
Proof.
  induction fuel as [| fuel IH]; intros n acc Hn Hlt;
    rewrite str_of_nonneg_aux_S;
    assert (Hmod : 0 <= n mod 10 < 10) by (apply Z.mod_pos_bound; lia);
    destruct (digit_char_spec (n mod 10) Hmod) as [Hd Hv];
    pose proof (Z.div_mod n 10 ltac:(lia)) as Hdm;
    assert (Hq0 : 0 <= n / 10) by (apply Z.div_pos; lia);
    rewrite Nat2Z.inj_succ, Z.pow_succ_r in Hlt by lia;
    destruct (n / 10 =? 0) eqn:Hq;
    try (apply Z.eqb_eq in Hq;
         exists [digit_char (n mod 10)]; repeat split;
         [ discriminate
         | simpl; rewrite Hd; reflexivity
         | unfold int_digits; cbn [fold_left]; rewrite Hv; lia ]).
  - apply Z.eqb_neq in Hq. simpl in Hlt. lia.
  - apply Z.eqb_neq in Hq.
    assert (Hq1 : n / 10 < 2 ^ Z.of_nat (S fuel)) by lia.
    destruct (IH (n / 10) (digit_char (n mod 10) :: acc) Hq0 Hq1)
      as (ds & Heq & [Hne Hall] & Hval).
    exists (ds ++ [digit_char (n mod 10)]). repeat split.
    + rewrite Heq, <- app_assoc. reflexivity.
    + destruct ds; discriminate.
    + rewrite forallb_app, Hall. simpl. rewrite Hd. reflexivity.
    + rewrite int_digits_snoc, Hval, Hv. lia.
Qed.

Lemma str_of_nonneg_spec (n : Z) :
  0 <= n -> digit_run (str_of_nonneg n) /\ int_digits (str_of_nonneg n) = n.
Proof.
  intros Hn. unfold str_of_nonneg.
  assert (Hlt : n < 2 ^ Z.of_nat (S (Z.to_nat (Z.log2 n)))).
  { rewrite Nat2Z.inj_succ, Z2Nat.id by apply Z.log2_nonneg.
    destruct (Z.eq_dec n 0) as [-> | Hnz].
    - vm_compute. reflexivity.
    - apply Z.log2_spec. lia. }
  destruct (str_of_nonneg_aux_spec _ n [] Hn Hlt) as (ds & Heq & Hrun & Hval).
  rewrite app_nil_r in Heq. rewrite Heq. split; assumption.
Qed.

(** Either a run of digits that reads back as [n], or a minus sign first. *)
Lemma str_of_int_cases (n : Z) :
  (0 <= n /\ digit_run (str_of_int n) /\ int_digits (str_of_int n) = n) \/
  (n < 0 /\ exists t, str_of_int n = "-"%char :: t).
Proof.
  unfold str_of_int. destruct (n <? 0) eqn:Hneg.
  - right. apply Z.ltb_lt in Hneg. split; [assumption |].
    exists (str_of_nonneg (- n)). reflexivity.
  - left. apply Z.ltb_ge in Hneg. split; [assumption |].
    apply str_of_nonneg_spec. assumption.
Qed.

Lemma int_digit_run (ds : str) :
  digit_run ds ->
  int ds = if (List.length ds <=? int_max_str_digits)%nat
           then Ok (int_digits ds) else Raise ValueError.
Proof.
  intros [Hne Hall]. unfold int. destruct ds; [congruence |].
  rewrite Hall. reflexivity.
Qed.

Lemma int_short_run (ds : str) :
  digit_run ds -> (List.length ds <= int_max_str_digits)%nat ->
  int ds = Ok (int_digits ds).
Proof.
  intros Hrun Hlen. rewrite (int_digit_run ds Hrun).
  apply Nat.leb_le in Hlen. rewrite Hlen. reflexivity.
Qed.

(** On a digit run [int] returns its decimal value or raises [ValueError]. *)
Lemma int_cases (ds : str) :
  digit_run ds ->
  (int ds = Ok (int_digits ds) /\ 0 <= int_digits ds) \/ int ds = Raise ValueError.
Proof.
  intros Hrun. rewrite (int_digit_run ds Hrun).
  destruct (List.length ds <=? int_max_str_digits)%nat; [left | right; reflexivity].
  split; [reflexivity | apply int_digits_nonneg; apply Hrun].
Qed.

(** ** The matcher against the language of the pattern *)

Lemma digits_plus_sound {A : Type} (k : str -> str -> option A) (s : str) :
  forall (acc : str) (r : A),
    digits_plus k acc s = Some r ->
    exists ds rest, digit_run ds /\ s = ds ++ rest /\ k (acc ++ ds) rest = Some r.
Proof.
  induction s as [| c s IH]; intros acc r H; simpl in H; [discriminate |].
  destruct (is_digit c) eqn:Hc; [| discriminate].
  destruct (digits_plus k (acc ++ [c]) s) as [r' |] eqn:Hrec.
  - injection H as ->.
    destruct (IH _ _ Hrec) as (ds & rest & [Hne Hall] & -> & Hk).
    exists (c :: ds), rest. repeat split.
    + discriminate.
    + simpl. rewrite Hc, Hall. reflexivity.
    + rewrite <- app_assoc in Hk. exact Hk.
  - exists [c], s. repeat split.
    + discriminate.
    + simpl. rewrite Hc. reflexivity.
    + exact H.
Qed.

Lemma digits_plus_complete {A : Type} (k : str -> str -> option A) (ds : str) :
  forall (acc rest : str) (r : A),
    digit_run ds -> k (acc ++ ds) rest = Some r ->
    exists r', digits_plus k acc (ds ++ rest) = Some r'.
Proof.
  induction ds as [| c ds IH]; intros acc rest r [Hne Hall] Hk; [congruence |].
  simpl in Hall. apply andb_true_iff in Hall. destruct Hall as [Hc Hall].
  simpl. rewrite Hc.
  destruct (digits_plus k (acc ++ [c]) (ds ++ rest)) as [r' |] eqn:Hrec.
  - exists r'. reflexivity.
  - destruct ds as [| d ds'].
    + exists r. exact Hk.
    + destruct (IH (acc ++ [c]) rest r) as [r' Hr'].
      * split; [discriminate | exact Hall].
      * rewrite <- app_assoc. exact Hk.
      * congruence.
Qed.

(** When no digit follows the run, the greedy attempt is the whole run. *)
Lemma digits_plus_longest {A : Type} (k : str -> str -> option A) (ds : str) :
  forall (acc rest : str) (r : A),
    digit_run ds -> no_leading_digit rest = true ->
    k (acc ++ ds) rest = Some r ->
    digits_plus k acc (ds ++ rest) = Some r.
Proof.
  induction ds as [| c ds IH]; intros acc rest r [Hne Hall] Hrest Hk; [congruence |].
  simpl in Hall. apply andb_true_iff in Hall. destruct Hall as [Hc Hall].
  simpl. rewrite Hc.
  destruct ds as [| d ds'].
  - simpl. destruct rest as [| c' rest'].
    + exact Hk.
    + simpl in Hrest. apply negb_true_iff in Hrest.
      simpl. rewrite Hrest. exact Hk.
  - rewrite (IH (acc ++ [c]) rest r); try reflexivity; try assumption.
    + split; [discriminate | exact Hall].
    + rewrite <- app_assoc. exact Hk.
Qed.

Theorem re_match_sound (p : list re_item) :
  forall (s : str) (gs : list str),
    re_match p s = Some gs -> exists rest, matches p s gs rest.
Proof.
  induction p as [| [c |] p IH]; intros s gs H; simpl in H.
  - injection H as <-. exists s. constructor.
  - destruct s as [| c' s']; [discriminate |].
    destruct (Ascii.eqb c c') eqn:Hc; [| discriminate].
    apply Ascii.eqb_eq in Hc. subst c'.
    destruct (IH _ _ H) as [rest Hm]. exists rest. constructor. exact Hm.
  - apply digits_plus_sound in H.
    destruct H as (ds & rest & Hrun & -> & Hk). simpl in Hk.
    destruct (re_match p rest) as [gs' |] eqn:Hrec; [| discriminate].
    simpl in Hk. injection Hk as <-.
    destruct (IH _ _ Hrec) as [rest' Hm]. exists rest'.
    constructor; assumption.
Qed.

Theorem re_match_complete (p : list re_item) (s : str) (gs : list str) (rest : str) :
  matches p s gs rest -> exists gs', re_match p s = Some gs'.
Proof.
  induction 1 as [s | c p s gs rest Hm IH | p ds s gs rest Hrun Hm IH].
  - exists []. reflexivity.
  - destruct IH as [gs' IH]. exists gs'. simpl.
    rewrite Ascii.eqb_refl. exact IH.
  - destruct IH as [gs' IH]. simpl.
    eapply digits_plus_complete; [exact Hrun |].
    simpl. rewrite IH. reflexivity.
Qed.

(** ** The rectangle pattern *)

Ltac inv_matches :=
  repeat match goal with
         | H : matches (_ :: _) _ _ _ |- _ => inversion H; subst; clear H
         | H : matches [] _ _ _ |- _ => inversion H; subst; clear H
         end.

Lemma matches_rectangle_inv (s : str) (gs : list str) (rest : str) :
  matches screenshare_argument_regex s gs rest ->
  exists dw dh dx dy,
    digit_run dw /\ digit_run dh /\ digit_run dx /\ digit_run dy /\
    gs = [dw; dh; dx; dy] /\
    s = (dw ++ "x" ++ dh ++ "+" ++ dx ++ "," ++ dy) ++ rest.
Proof.
  unfold screenshare_argument_regex. intros H. inv_matches.
  match goal with
  | |- exists _ _ _ _, _ /\ _ /\ _ /\ _ /\ [?a; ?b; ?c; ?d] = _ /\ _ =>
      exists a, b, c, d
  end.
  repeat (split; [assumption |]). split; [reflexivity |].
  repeat (rewrite <- app_assoc; simpl). reflexivity.
Qed.

Lemma matches_rectangle_intro (dw dh dx dy rest : str) :
  digit_run dw -> digit_run dh -> digit_run dx -> digit_run dy ->
  matches screenshare_argument_regex
    ((dw ++ "x" ++ dh ++ "+" ++ dx ++ "," ++ dy) ++ rest) [dw; dh; dx; dy] rest.
Proof.
  intros Hw Hh Hx Hy. unfold screenshare_argument_regex.
  repeat (rewrite <- app_assoc; simpl).
  repeat (first [ apply matches_digits; [assumption |]
                | apply matches_lit
                | apply matches_nil ]).
Qed.

Lemma has_rectangle_prefix_matches (s : str) :
  has_rectangle_prefix s <->
  exists gs rest, matches screenshare_argument_regex s gs rest.
Proof.
  split.
  - intros (p & rest & (dw & dh & dx & dy & Hw & Hh & Hx & Hy & ->) & ->).
    exists [dw; dh; dx; dy], rest. apply matches_rectangle_intro; assumption.
  - intros (gs & rest & Hm).
    destruct (matches_rectangle_inv _ _ _ Hm)
      as (dw & dh & dx & dy & Hw & Hh & Hx & Hy & _ & ->).
    exists (dw ++ "x" ++ dh ++ "+" ++ dx ++ "," ++ dy), rest.
    split; [| reflexivity].
    exists dw, dh, dx, dy. repeat (split; [assumption |]). reflexivity.
Qed.

(** What the parser returns once the pattern has matched: the four groups
    are digit runs, and the result is that of the four [int()] calls. *)
Lemma parse_of_match (s : str) (gs : list str) :
  re_match screenshare_argument_regex s = Some gs ->
  exists dw dh dx dy rest,
    digit_run dw /\ digit_run dh /\ digit_run dx /\ digit_run dy /\
    gs = [dw; dh; dx; dy] /\
    s = (dw ++ "x" ++ dh ++ "+" ++ dx ++ "," ++ dy) ++ rest /\
    parse_screenshare_argument s =
      (w <- int dw ;; h <- int dh ;; x <- int dx ;; y <- int dy ;;
       Ok (Some (w, h, x, y))).
Proof.
  intros Hre. destruct (re_match_sound _ _ _ Hre) as [rest Hm].
  destruct (matches_rectangle_inv _ _ _ Hm)
    as (dw & dh & dx & dy & Hw & Hh & Hx & Hy & -> & Hs).
  exists dw, dh, dx, dy, rest. repeat (split; [assumption |]).
  split; [reflexivity |]. split; [assumption |].
  unfold parse_screenshare_argument. rewrite Hre. reflexivity.
Qed.

(** The three outcomes of the parser: [None], a rectangle of non-negative
    numbers, or the [ValueError] of an [int()] call. *)
Lemma parse_total (s : str) :
  parse_screenshare_argument s = Ok None \/
  (exists w h x y, parse_screenshare_argument s = Ok (Some (w, h, x, y)) /\
                   0 <= w /\ 0 <= h /\ 0 <= x /\ 0 <= y) \/
  parse_screenshare_argument s = Raise ValueError.
Proof.
  destruct (re_match screenshare_argument_regex s) as [gs |] eqn:Hre.
  - right. destruct (parse_of_match s gs Hre)
      as (dw & dh & dx & dy & rest & Hw & Hh & Hx & Hy & _ & _ & ->).
    destruct (int_cases dw Hw) as [[-> Pw] | ->]; [| right; reflexivity].
    destruct (int_cases dh Hh) as [[-> Ph] | ->]; [| right; reflexivity].
    destruct (int_cases dx Hx) as [[-> Px] | ->]; [| right; reflexivity].
    destruct (int_cases dy Hy) as [[-> Py] | ->]; [| right; reflexivity].
    left. exists (int_digits dw), (int_digits dh), (int_digits dx), (int_digits dy).
    split; [reflexivity | tauto].
  - left. unfold parse_screenshare_argument. rewrite Hre. reflexivity.
Qed.

(** Once the pattern has matched the parser does not return [None]. *)
Lemma parse_of_match_not_none (s : str) (gs : list str) :
  re_match screenshare_argument_regex s = Some gs ->
  parse_screenshare_argument s <> Ok None.
Proof.
  intros Hre. destruct (parse_of_match s gs Hre)
    as (dw & dh & dx & dy & rest & Hw & Hh & Hx & Hy & _ & _ & ->).
  destruct (int_cases dw Hw) as [[-> _] | ->]; [| discriminate].
  destruct (int_cases dh Hh) as [[-> _] | ->]; [| discriminate].
  destruct (int_cases dx Hx) as [[-> _] | ->]; [| discriminate].
  destruct (int_cases dy Hy) as [[-> _] | ->]; discriminate.
Qed.

Lemma parse_none_iff (s : str) :
  parse_screenshare_argument s = Ok None <-> ~ has_rectangle_prefix s.
Proof.
  rewrite has_rectangle_prefix_matches. split.
  - intros Hp (gs & rest & Hm).
    destruct (re_match_complete _ _ _ _ Hm) as [gs' Hre].
    exact (parse_of_match_not_none s gs' Hre Hp).
  - intros Hno.
    destruct (re_match screenshare_argument_regex s) as [gs |] eqn:Hre.
    + exfalso. apply Hno. destruct (re_match_sound _ _ _ Hre) as [rest Hm].
      exists gs, rest. exact Hm.
    + unfold parse_screenshare_argument. rewrite Hre. reflexivity.
Qed.

Lemma re_match_digits_group (p : list re_item) (ds tail : str) (gs : list str) :
  digit_run ds -> no_leading_digit tail = true ->
  re_match p tail = Some gs ->
  re_match (DigitsGroup :: p) (ds ++ tail) = Some (ds :: gs).
Proof.
  intros Hrun Htail Hp. cbn [re_match].
  apply digits_plus_longest; [assumption | assumption |].
  simpl. rewrite Hp. reflexivity.
Qed.

Lemma re_match_lit (c : ascii) (p : list re_item) (tail : str) (gs : list str) :
  re_match p tail = Some gs -> re_match (Lit c :: p) (c :: tail) = Some gs.
Proof.
  intros Hp. cbn [re_match]. rewrite Ascii.eqb_refl. exact Hp.
Qed.

(** The match is the one the format describes when no digit follows it. *)
Lemma re_match_rectangle (dw dh dx dy rest : str) :
  digit_run dw -> digit_run dh -> digit_run dx -> digit_run dy ->
  no_leading_digit rest = true ->
  re_match screenshare_argument_regex
    ((dw ++ "x" ++ dh ++ "+" ++ dx ++ "," ++ dy) ++ rest) = Some [dw; dh; dx; dy].
Proof.
  intros Hw Hh Hx Hy Hrest. unfold screenshare_argument_regex.
  repeat (rewrite <- app_assoc; cbn [app list_ascii_of_string]).
  apply re_match_digits_group; [assumption | reflexivity |].
  apply re_match_lit.
  apply re_match_digits_group; [assumption | reflexivity |].
  apply re_match_lit.
  apply re_match_digits_group; [assumption | reflexivity |].
  apply re_match_lit.
  apply re_match_digits_group; [assumption | assumption |].
  reflexivity.
Qed.

Lemma run_split_unique (d1 : str) :
  forall d2 r1 r2 : str,
    forallb is_digit d1 = true -> forallb is_digit d2 = true ->
    no_leading_digit r1 = true -> no_leading_digit r2 = true ->
    d1 ++ r1 = d2 ++ r2 -> d1 = d2 /\ r1 = r2.
Proof.
  induction d1 as [| c d1 IH]; intros [| c2 d2] r1 r2 H1 H2 Hr1 Hr2 Heq;
    simpl in *.
  - split; [reflexivity | exact Heq].
  - subst r1. simpl in Hr1. apply andb_true_iff in H2.
    destruct H2 as [H2 _]. rewrite H2 in Hr1. discriminate.
  - subst r2. simpl in Hr2. apply andb_true_iff in H1.
    destruct H1 as [H1 _]. rewrite H1 in Hr2. discriminate.
  - injection Heq as -> Heq.
    apply andb_true_iff in H1. apply andb_true_iff in H2.
    destruct (IH d2 r1 r2) as [-> ->]; try tauto.
Qed.

(** A digit run is never a prefix of a string that starts with no digit. *)
Lemma run_not_prefix (ds tail s : str) :
  digit_run ds -> no_leading_digit s = true -> ds ++ tail = s -> False.
Proof.
  intros [Hne Hall] Hs Heq. destruct ds as [| c ds]; [congruence |].
  subst s. simpl in *. apply andb_true_iff in Hall.
  destruct Hall as [Hc _]. rewrite Hc in Hs. discriminate.
Qed.

Lemma all_screens_no_prefix (m : VideoMode) :
  ~ has_rectangle_prefix (get_all_screens_size m).
Proof.
  intros (p & rest & (dw & dh & dx & dy & Hw & Hh & Hx & Hy & ->) & Heq).
  unfold get_all_screens_size in Heq. cbv zeta in Heq.
  repeat (rewrite <- app_assoc in Heq; cbn [app list_ascii_of_string] in Heq).
  destruct (str_of_int_cases (mode_Width m)) as [(_ & Hrw & _) | (_ & t & Ht)].
  - apply run_split_unique in Heq;
      [| exact (proj2 Hrw) | exact (proj2 Hw) | reflexivity | reflexivity].
    destruct Heq as [_ Heq]. injection Heq as Heq.
    destruct (str_of_int_cases (mode_Height m)) as [(_ & Hrh & _) | (_ & t & Ht)].
    + apply run_split_unique in Heq;
        [| exact (proj2 Hrh) | exact (proj2 Hh) | reflexivity | reflexivity].
      destruct Heq as [_ Heq]. discriminate Heq.
    + rewrite Ht in Heq. symmetry in Heq.
      apply (run_not_prefix _ _ _ Hh) in Heq; [exact Heq | reflexivity].
  - rewrite Ht in Heq. symmetry in Heq.
    apply (run_not_prefix _ _ _ Hw) in Heq; [exact Heq | reflexivity].
Qed.


(** ** Formatting, then parsing *)

Lemma str_of_int_nonneg (n : Z) :
  0 <= n -> str_of_int n = str_of_nonneg (Z.abs n).
Proof.
  intros Hn. unfold str_of_int.
  destruct (n <? 0) eqn:Hneg; [apply Z.ltb_lt in Hneg; lia |].
  rewrite Z.abs_eq by exact Hn. reflexivity.
Qed.

Lemma format_int_ok (n : Z) (s : str) :
  format_int n = Ok s -> s = str_of_int n /\ fits n = true.
Proof.
  unfold format_int. destruct (fits n); [| discriminate].
  intros H. injection H as <-. split; reflexivity.
Qed.

Lemma format_int_fits (n : Z) :
  fits n = true -> format_int n = Ok (str_of_int n).
Proof.
  intros H. unfold format_int. rewrite H. reflexivity.
Qed.

Lemma format_int_cases (n : Z) :
  format_int n = Ok (str_of_int n) \/ format_int n = Raise ValueError.
Proof.
  unfold format_int. destruct (fits n); [left | right]; reflexivity.
Qed.

Lemma str_of_nonneg_aux_length (fuel : nat) :
  forall (n : Z) (acc : str) (k : nat),
    0 <= n < 10 ^ Z.of_nat (S k) ->
    (List.length (str_of_nonneg_aux fuel n acc) <= S k + List.length acc)%nat.
Proof.
  induction fuel as [| fuel IH]; intros n acc k Hn; [simpl; lia |].
  rewrite str_of_nonneg_aux_S. destruct (n / 10 =? 0) eqn:Hq; [simpl; lia |].
  apply Z.eqb_neq in Hq.
  assert (Hq0 : 0 <= n / 10) by (apply Z.div_pos; lia).
  rewrite Nat2Z.inj_succ, Z.pow_succ_r in Hn by lia.
  destruct k as [| k].
  - exfalso. simpl in Hn. apply Hq. apply Z.div_small. lia.
  - assert (Hlt : n / 10 < 10 ^ Z.of_nat (S k))
      by (apply Z.div_lt_upper_bound; lia).
    specialize (IH (n / 10) (digit_char (n mod 10) :: acc) k (conj Hq0 Hlt)).
    simpl List.length in IH. lia.
Qed.

(** The decimal text of a number below [10 ^ k] has at most [k] digits. *)
Lemma str_of_nonneg_length (n : Z) (k : nat) :
  0 <= n < 10 ^ Z.of_nat (S k) ->
  (List.length (str_of_nonneg n) <= S k)%nat.
Proof.
  intros Hn. unfold str_of_nonneg.
  pose proof (str_of_nonneg_aux_length (S (Z.to_nat (Z.log2 n))) n [] k Hn) as H.
  change (List.length (@nil ascii)) with 0%nat in H.
  rewrite Nat.add_0_r in H. exact H.
Qed.

Lemma int_max_str_digits_succ :
  int_max_str_digits = S (Nat.pred int_max_str_digits).
Proof. reflexivity. Qed.

Lemma fits_length (n : Z) :
  0 <= n -> fits n = true ->
  (List.length (str_of_int n) <= int_max_str_digits)%nat.
Proof.
  intros Hn Hfit. unfold fits in Hfit. apply Z.ltb_lt in Hfit.
  rewrite Z.abs_eq in Hfit by exact Hn.
  rewrite (str_of_int_nonneg n Hn), Z.abs_eq by exact Hn.
  rewrite int_max_str_digits_succ in Hfit |- *.
  apply str_of_nonneg_length. lia.
Qed.

(** Numbers of at most ten digits, such as C [int]s, are within the limit. *)
Lemma small_fits (n : Z) :
  Z.abs n < 10 ^ 10 -> fits n = true.
Proof.
  intros Hn. unfold fits. apply Z.ltb_lt.
  apply Z.lt_le_trans with (10 ^ 10); [exact Hn |].
  apply Z.pow_le_mono_r; [lia |].
  rewrite int_max_str_digits_succ, Nat2Z.inj_succ.
  pose proof (Nat2Z.is_nonneg (Nat.pred int_max_str_digits)) as Hp.
  assert (Hten : (10 <= int_max_str_digits)%nat)
    by (unfold int_max_str_digits; repeat (apply le_n_S); apply Nat.le_0_l).
  rewrite int_max_str_digits_succ in Hten. lia.
Qed.

Lemma limit_does_not_fit : fits (10 ^ Z.of_nat int_max_str_digits) = false.
Proof.
  unfold fits. rewrite Z.abs_eq by (apply Z.pow_nonneg; lia).
  apply Z.ltb_irrefl.
Qed.

(** A non-negative integer within the limit on digits reads back from its
    decimal text. *)
Lemma int_str_of_int (n : Z) :
  0 <= n -> fits n = true -> int (str_of_int n) = Ok n.
Proof.
  intros Hn Hfit.
  destruct (str_of_int_cases n) as [(_ & Hrun & Hval) | (? & _)]; [| lia].
  rewrite (int_short_run _ Hrun (fits_length n Hn Hfit)), Hval. reflexivity.
Qed.

Lemma parse_formatted_tail (w h x y : Z) (tail : str) :
  0 <= w -> 0 <= h -> 0 <= x -> 0 <= y ->
  fits w = true -> fits h = true -> fits x = true -> fits y = true ->
  no_leading_digit tail = true ->
  parse_screenshare_argument
    ((str_of_int w ++ "x" ++ str_of_int h ++ "+" ++ str_of_int x ++ ","
        ++ str_of_int y) ++ tail)
  = Ok (Some (w, h, x, y)).
Proof.
  intros Hw Hh Hx Hy Fw Fh Fx Fy Htail.
  destruct (str_of_int_cases w) as [(_ & Rw & _) | (? & _)]; [| lia].
  destruct (str_of_int_cases h) as [(_ & Rh & _) | (? & _)]; [| lia].
  destruct (str_of_int_cases x) as [(_ & Rx & _) | (? & _)]; [| lia].
  destruct (str_of_int_cases y) as [(_ & Ry & _) | (? & _)]; [| lia].
  pose proof (re_match_rectangle _ _ _ _ tail Rw Rh Rx Ry Htail) as Hre.
  unfold parse_screenshare_argument. rewrite Hre.
  unfold group. cbn [Nat.pred nth_error bind].
  rewrite (int_str_of_int w Hw Fw), (int_str_of_int h Hh Fh),
          (int_str_of_int x Hx Fx), (int_str_of_int y Hy Fy).
  reflexivity.
Qed.

Lemma parse_formatted (w h x y : Z) :
  0 <= w -> 0 <= h -> 0 <= x -> 0 <= y ->
  fits w = true -> fits h = true -> fits x = true -> fits y = true ->
  parse_screenshare_argument
    (str_of_int w ++ "x" ++ str_of_int h ++ "+" ++ str_of_int x ++ "," ++ str_of_int y)
  = Ok (Some (w, h, x, y)).
Proof.
  intros Hw Hh Hx Hy Fw Fh Fx Fy.
  pose proof (parse_formatted_tail w h x y [] Hw Hh Hx Hy Fw Fh Fx Fy eq_refl) as H.
  rewrite app_nil_r in H. exact H.
Qed.

(** The per-display strings of [list_screen_sizes] are in the format the
    parser reads. *)
Lemma screen_geometry_parses (g : Rect) :
  0 <= Width g -> 0 <= Height g -> 0 <= X g -> 0 <= Y g ->
  fits (Width g) = true -> fits (Height g) = true ->
  fits (X g) = true -> fits (Y g) = true ->
  parse_screenshare_argument (geometry_string g)
  = Ok (Some (Width g, Height g, X g, Y g)).
Proof.
  intros Hw Hh Hx Hy Fw Fh Fx Fy. unfold geometry_string.
  apply parse_formatted; assumption.
Qed.

(** ** Substrings *)

Lemma startswith_spec (p : str) :
  forall s : str, startswith s p = true <-> exists t, s = p ++ t.
Proof.
  induction p as [| c p IH]; intros s; simpl.
  - split; [intros _; exists s; reflexivity | reflexivity].
  - destruct s as [| c' s'].
    + split; [discriminate | intros [t Ht]; discriminate].
    + rewrite andb_true_iff, Ascii.eqb_eq, IH. split.
      * intros [-> [t ->]]. exists t. reflexivity.
      * intros [t Ht]. injection Ht as -> ->. split; [reflexivity | exists t; reflexivity].
Qed.

Lemma contains_occurs (sub s : str) :
  contains s sub = true <-> occurs sub s.
Proof.
  induction s as [| c s IH].
  - simpl. rewrite orb_false_r, startswith_spec. split.
    + intros [t Ht]. exists [], t. exact Ht.
    + intros (a & b & Hab). destruct a; [| discriminate].
      exists b. exact Hab.
  - cbn [contains]. rewrite orb_true_iff, startswith_spec, IH. split.
    + intros [[t Ht] | (a & b & Hab)].
      * exists [], t. exact Ht.
      * exists (c :: a), b. rewrite Hab. reflexivity.
    + intros (a & b & Hab). destruct a as [| c' a].
      * left. exists b. exact Hab.
      * right. injection Hab as _ Hab. exists a, b. exact Hab.
Qed.

Lemma contains_false (sub s : str) :
  contains s sub = false <-> ~ occurs sub s.
Proof.
  rewrite <- contains_occurs. destruct (contains s sub); split; congruence.
Qed.

Lemma occurs_no_first (c : ascii) (t s : str) :
  ~ In c s -> ~ occurs (c :: t) s.
Proof.
  intros Hc (a & b & ->). apply Hc. apply in_or_app. right. left. reflexivity.
Qed.

(** An occurrence cannot start in a prefix that lacks its first character. *)
Lemma occurs_skip_prefix (c : ascii) (t a b : str) :
  ~ In c a -> occurs (c :: t) (a ++ b) -> occurs (c :: t) b.
Proof.
  induction a as [| x a IH]; intros Hc Hocc; [exact Hocc |].
  apply IH; [intros Hin; apply Hc; right; exact Hin |].
  destruct Hocc as (l1 & l2 & Heq). destruct l1 as [| y l1].
  - injection Heq as -> _. exfalso. apply Hc. left. reflexivity.
  - injection Heq as _ Heq. exists l1, l2. exact Heq.
Qed.

Lemma prefix_before_sep (d : ascii) (sub : str) :
  forall a b l2 : str,
    ~ In d sub -> sub ++ l2 = a ++ d :: b -> exists t, a = sub ++ t.
Proof.
  induction sub as [| x sub IH]; intros a b l2 Hd Heq.
  - exists a. reflexivity.
  - destruct a as [| y a].
    + injection Heq as -> _. exfalso. apply Hd. left. reflexivity.
    + injection Heq as -> Heq.
      destruct (IH a b l2) as [t ->]; [intros Hin; apply Hd; right; exact Hin | exact Heq |].
      exists t. reflexivity.
Qed.

(** An occurrence cannot straddle a character it does not contain. *)
Lemma occurs_split_sep (d : ascii) (sub a b : str) :
  ~ In d sub -> occurs sub (a ++ d :: b) -> occurs sub a \/ occurs sub b.
Proof.
  intros Hd. induction a as [| x a IH]; intros (l1 & l2 & Heq).
  - destruct l1 as [| y l1].
    + symmetry in Heq. destruct (prefix_before_sep d sub [] b l2 Hd Heq) as [t Ht].
      left. exists [], t. exact Ht.
    + injection Heq as _ Heq. right. exists l1, l2. exact Heq.
  - destruct l1 as [| y l1].
    + symmetry in Heq.
      destruct (prefix_before_sep d sub (x :: a) b l2 Hd Heq) as [t Ht].
      left. exists [], t. exact Ht.
    + injection Heq as _ Heq.
      destruct IH as [(a1 & a2 & Ha) | Hb]; [exists l1, l2; exact Heq | |].
      * left. exists (x :: a1), a2. rewrite Ha. reflexivity.
      * right. exact Hb.
Qed.

Lemma existsb_eqb_false (c : ascii) (s : str) :
  existsb (Ascii.eqb c) s = false -> ~ In c s.
Proof.
  intros H Hin.
  assert (Ht : existsb (Ascii.eqb c) s = true).
  { apply existsb_exists. exists c. split; [exact Hin | apply Ascii.eqb_refl]. }
  congruence.
Qed.

Lemma str_of_int_chars (n : Z) (c : ascii) :
  In c (str_of_int n) -> is_digit c = true \/ c = "-"%char.
Proof.
  unfold str_of_int. destruct (n <? 0) eqn:Hneg.
  - apply Z.ltb_lt in Hneg. intros [<- | Hin]; [right; reflexivity |].
    left. destruct (str_of_nonneg_spec (- n)) as [[_ Hall] _]; [lia |].
    rewrite forallb_forall in Hall. apply Hall. exact Hin.
  - apply Z.ltb_ge in Hneg. intros Hin. left.
    destruct (str_of_nonneg_spec n Hneg) as [[_ Hall] _].
    rewrite forallb_forall in Hall. apply Hall. exact Hin.
Qed.

(** A parameter name is not found in [pre u mid n post] unless the URI [u]
    or the trailing options [post] hold it: it starts with a letter that
    occurs in neither [pre] nor [mid], and it has no blank. *)
Lemma token_not_in_sink (c : ascii) (t pre u mid post : str) (n : Z) :
  existsb (Ascii.eqb c) pre = false ->
  existsb (Ascii.eqb c) mid = false ->
  existsb (Ascii.eqb " ") (c :: t) = false ->
  is_digit c = false -> c <> "-"%char ->
  contains u (c :: t) = false -> contains post (c :: t) = false ->
  contains (pre ++ u ++ " " ++ mid ++ str_of_int n ++ " " ++ post) (c :: t) = false.
Proof.
  intros Hpre Hmid Hsp Hdig Hminus Hu Hpost.
  apply existsb_eqb_false in Hpre, Hmid, Hsp.
  apply contains_false in Hu, Hpost. apply contains_false.
  intros Hocc.
  apply occurs_skip_prefix in Hocc; [| exact Hpre].
  cbn [app list_ascii_of_string] in Hocc.
  apply occurs_split_sep in Hocc; [| exact Hsp].
  destruct Hocc as [Hocc | Hocc]; [exact (Hu Hocc) |].
  rewrite app_assoc in Hocc.
  apply occurs_split_sep in Hocc; [| exact Hsp].
  destruct Hocc as [Hocc | Hocc]; [| exact (Hpost Hocc)].
  revert Hocc. apply occurs_no_first. intros Hin.
  apply in_app_or in Hin. destruct Hin as [Hin | Hin]; [exact (Hmid Hin) |].
  apply str_of_int_chars in Hin. destruct Hin; congruence.
Qed.

Lemma token_not_in_source (c : ascii) (t pre u post : str) :
  existsb (Ascii.eqb c) pre = false ->
  existsb (Ascii.eqb " ") (c :: t) = false ->
  contains u (c :: t) = false -> contains post (c :: t) = false ->
  contains (pre ++ u ++ " " ++ post) (c :: t) = false.
Proof.
  intros Hpre Hsp Hu Hpost.
  apply existsb_eqb_false in Hpre, Hsp.
  apply contains_false in Hu, Hpost. apply contains_false.
  intros Hocc.
  apply occurs_skip_prefix in Hocc; [| exact Hpre].
  cbn [app list_ascii_of_string] in Hocc.
  apply occurs_split_sep in Hocc; [| exact Hsp].
  destruct Hocc as [Hocc | Hocc]; [exact (Hu Hocc) | exact (Hpost Hocc)].
Qed.

(** * The claims *)

(** ** Rectangle parser *)

Example parse_samples :
  parse_screenshare_argument "1920x1080+0,0" = Ok (Some (1920, 1080, 0, 0)) /\
  parse_screenshare_argument "" = Ok None /\
  parse_screenshare_argument "1920x1080" = Ok None /\
  parse_screenshare_argument "-1x2+3,4" = Ok None /\
  parse_screenshare_argument "1x2+-3,4" = Ok None /\
  parse_screenshare_argument "axb+c,d" = Ok None /\
  parse_screenshare_argument " 1x2+3,4" = Ok None /\
  parse_screenshare_argument "007x2+3,4 " = Ok (Some (7, 2, 3, 4)).
Proof. vm_compute. repeat split; reflexivity. Qed.

(** C5, as stated: for all non-negative integers the formatted string
    parses back.  An integer of more than [int_max_str_digits] digits is not
    even formatted: the f-string raises [ValueError]. *)
Lemma huge_integer_not_formatted :
  ~ (forall w h x y : Z,
       0 <= w -> 0 <= h -> 0 <= x -> 0 <= y ->
       (s <- fstring_rectangle w h x y ;; parse_screenshare_argument s)
       = Ok (Some (w, h, x, y))).
Proof.
  intros H.
  assert (Hbig : 0 <= 10 ^ Z.of_nat int_max_str_digits)
    by (apply Z.pow_nonneg; lia).
  specialize (H _ 0 0 0 Hbig (Z.le_refl 0) (Z.le_refl 0) (Z.le_refl 0)).
  assert (Hr : fstring_rectangle (10 ^ Z.of_nat int_max_str_digits) 0 0 0
               = Raise ValueError).
  { unfold fstring_rectangle, format_int. rewrite limit_does_not_fit.
    reflexivity. }
  rewrite Hr in H. discriminate H.
Qed.

(** C5, amended.  Four non-negative integers of at most
    [int_max_str_digits] decimal digits each are formatted by
    [f"{w}x{h}+{x},{y}"] without error, and parsing the result succeeds and
    gives back exactly [(w, h, x, y)]. *)
Theorem format_then_parse (w h x y : Z) :
  0 <= w -> 0 <= h -> 0 <= x -> 0 <= y ->
  fits w = true -> fits h = true -> fits x = true -> fits y = true ->
  fstring_rectangle w h x y = Ok (format_rectangle w h x y) /\
  parse_screenshare_argument (format_rectangle w h x y) = Ok (Some (w, h, x, y)).
Proof.
  intros Hw Hh Hx Hy Fw Fh Fx Fy. split.
  - unfold fstring_rectangle.
    rewrite (format_int_fits w Fw), (format_int_fits h Fh),
            (format_int_fits x Fx), (format_int_fits y Fy).
    reflexivity.
  - unfold format_rectangle. apply parse_formatted; assumption.
Qed.

Lemma format_then_parse_witness :
  fstring_rectangle 1920 1080 0 0 = Ok (format_rectangle 1920 1080 0 0) /\
  parse_screenshare_argument (format_rectangle 1920 1080 0 0)
  = Ok (Some (1920, 1080, 0, 0)).
Proof.
  apply (format_then_parse 1920 1080 0 0);
    solve [lia | apply small_fits; vm_compute; reflexivity].
Defined.




(** C9, as stated: a rectangle that reaches the builder has positive width
    and height.  The pattern [\d+] accepts 0, and nothing checks the numbers
    afterwards. *)
Lemma zero_size_rectangle_reaches_builder :
  ~ (forall (args : Namespace) (arg : str) (width height startx starty : Z),
       effective_screenshare args = Some arg ->
       parse_screenshare_argument arg = Ok (Some (width, height, startx, starty)) ->
       width > 0 /\ height > 0).
Proof.
  intros H.
  destruct (H (listen_5000 (Some ("0x0+0,0" : str))) ("0x0+0,0" : str) 0 0 0 0)
    as [Hw _]; [reflexivity | vm_compute; reflexivity | lia].
Qed.

(** C9, amended.  Every rectangle that reaches the builder comes out of the
    parser and has width, height and both offsets non-negative; width 0 and
    height 0 are accepted. *)
Theorem builder_rectangle_nonnegative
    (args : Namespace) (arg : str) (width height startx starty : Z) :
  effective_screenshare args = Some arg ->
  parse_screenshare_argument arg = Ok (Some (width, height, startx, starty)) ->
  0 <= width /\ 0 <= height /\ 0 <= startx /\ 0 <= starty.
Proof.
  intros _ Hp.
  destruct (parse_total arg) as [Hn | [(w & h & x & y & Hs & Hb) | Hr]];
    [congruence | | congruence].
  rewrite Hp in Hs. injection Hs as -> -> -> ->. exact Hb.
Qed.

Lemma builder_rectangle_nonnegative_witness :
  0 <= 0 /\ 0 <= 5 /\ 0 <= 10 /\ 0 <= 20.
Proof.
  apply (builder_rectangle_nonnegative
           (listen_5000 (Some ("0x5+10,20" : str))) ("0x5+10,20" : str) 0 5 10 20).
  - reflexivity.
  - vm_compute. reflexivity.
Defined.

(** ** The all-displays geometry *)

(** C1.  The string built for [--screenshare-all] is [WxH,0+0], with the
    separators of the offsets swapped with respect to the per-display strings
    of [list_screen_sizes]: the parser rejects it for every display mode, and
    [main] then fails unpacking [None]. *)
Theorem all_screens_geometry_rejected (m : VideoMode) :
  parse_screenshare_argument (get_all_screens_size m) = Ok None /\
  forall gethostbyname run_shell argv,
    main gethostbyname run_shell argv (listen_5000_screenshare_all m)
    = Raise TypeError.
Proof.
  assert (Hp : parse_screenshare_argument (get_all_screens_size m) = Ok None).
  { apply parse_none_iff. apply all_screens_no_prefix. }
  split; [exact Hp |].
  intros gethostbyname run_shell argv.
  unfold main, pipeline, resolve_uri, build_gst_launch_args,
    effective_screenshare, listen_5000_screenshare_all.
  cbn [listen_port truthy screenshare_rectangle screenshare bind
       list_ascii_of_string].
  rewrite Hp. reflexivity.
Qed.

(** ** The pipeline builder *)


Lemma int_digits_bound (ds : str) :
  forallb is_digit ds = true ->
  0 <= int_digits ds < 10 ^ Z.of_nat (List.length ds).
Proof.
  induction ds as [| c ds IH] using rev_ind; intros H.
  - unfold int_digits. simpl. lia.
  - rewrite forallb_app in H. apply andb_true_iff in H. destruct H as [H1 H2].
    simpl in H2. rewrite andb_true_r in H2.
    rewrite int_digits_snoc, length_app, Nat.add_comm.
    cbn [List.length Nat.add]. rewrite Nat2Z.inj_succ, Z.pow_succ_r by lia.
    pose proof (is_digit_val_range c H2). specialize (IH H1). lia.
Qed.

(** What [int()] returns is within the limit on digits. *)
Lemma int_fits (ds : str) (v : Z) :
  digit_run ds -> int ds = Ok v -> v = int_digits ds /\ 0 <= v /\ fits v = true.
Proof.
  intros Hrun Hint. rewrite (int_digit_run ds Hrun) in Hint.
  destruct (List.length ds <=? int_max_str_digits)%nat eqn:Hlen; [| discriminate].
  injection Hint as <-. apply Nat.leb_le in Hlen.
  pose proof (int_digits_bound ds (proj2 Hrun)) as Hb.
  split; [reflexivity |]. split; [lia |].
  unfold fits. apply Z.ltb_lt. rewrite Z.abs_eq by lia.
  apply Z.lt_le_trans with (10 ^ Z.of_nat (List.length ds)); [lia |].
  apply Z.pow_le_mono_r; lia.
Qed.

(** The four numbers of a parsed rectangle can be formatted again. *)
Lemma parse_fits (s : str) (w h x y : Z) :
  parse_screenshare_argument s = Ok (Some (w, h, x, y)) ->
  fits w = true /\ fits h = true /\ fits x = true /\ fits y = true.
Proof.
  intros Hp.
  destruct (re_match screenshare_argument_regex s) as [gs |] eqn:Hre;
    [| unfold parse_screenshare_argument in Hp; rewrite Hre in Hp; discriminate].
  destruct (parse_of_match s gs Hre)
    as (dw & dh & dx & dy & rest & Hw & Hh & Hx & Hy & _ & _ & Heq).
  rewrite Heq in Hp.
  destruct (int dw) as [vw | e] eqn:Ew; [| discriminate].
  destruct (int dh) as [vh | e] eqn:Eh; [| discriminate].
  destruct (int dx) as [vx | e] eqn:Ex; [| discriminate].
  destruct (int dy) as [vy | e] eqn:Ey; [| discriminate].
  cbn [bind] in Hp. injection Hp as -> -> -> ->.
  split; [exact (proj2 (proj2 (int_fits dw w Hw Ew))) |].
  split; [exact (proj2 (proj2 (int_fits dh h Hh Eh))) |].
  split; [exact (proj2 (proj2 (int_fits dx x Hx Ex))) |].
  exact (proj2 (proj2 (int_fits dy y Hy Ey))).
Qed.

Lemma ximagesrc_stage_ok (startx endx starty endy : Z) (source : str) :
  ximagesrc_stage startx endx starty endy = Ok source ->
  source = "ximagesrc startx=" ++ str_of_int startx
             ++ " endx=" ++ str_of_int endx
             ++ " starty=" ++ str_of_int starty
             ++ " endy=" ++ str_of_int endy
             ++ " show-pointer=true use-damage=0".
Proof.
  unfold ximagesrc_stage.
  destruct (format_int_cases startx) as [-> | ->]; [| discriminate].
  destruct (format_int_cases endx) as [-> | ->]; [| discriminate].
  destruct (format_int_cases starty) as [-> | ->]; [| discriminate].
  destruct (format_int_cases endy) as [-> | ->]; [| discriminate].
  cbn [bind]. intros H. injection H as <-. reflexivity.
Qed.


Lemma x264enc_stage_ok (args : Namespace) (encoder : str) :
  x264enc_stage args = Ok encoder ->
  encoder = "! x264enc tune=zerolatency speed-preset=fast bitrate="
              ++ str_of_int (bitrate args)
              ++ " threads=1 byte-stream=true key-int-max=60 intra-refresh=true".
Proof.
  unfold x264enc_stage.
  destruct (format_int_cases (bitrate args)) as [-> | ->]; [| discriminate].
  cbn [bind]. intros H. injection H as <-. reflexivity.
Qed.

Lemma caps_stage_ok (args : Namespace) (caps : str) :
  caps_stage args = Ok caps ->
  caps = "! video/x-h264, profile=baseline, framerate="
           ++ str_of_int (fps args) ++ "/1".
Proof.
  unfold caps_stage.
  destruct (format_int_cases (fps args)) as [-> | ->]; [| discriminate].
  cbn [bind]. intros H. injection H as <-. reflexivity.
Qed.

Lemma srtsink_stage_ok (u : str) (args : Namespace) (sink : str) :
  srtsink_stage u args = Ok sink ->
  sink = "! srtsink uri=" ++ u ++ " latency=" ++ str_of_int (latency args) ++ " "
           ++ join " " (concat_lists [
                if fec args
                then ["packetfilter=fec,cols:3,rows:-3,layout:staircase,arq:always" : str]
                else [];
                passphrase_args args ]).
Proof.
  unfold srtsink_stage.
  destruct (format_int_cases (latency args)) as [-> | ->]; [| discriminate].
  cbn [bind]. intros H. injection H as <-. reflexivity.
Qed.


Lemma build_screenshare_inv (u : str) (args : Namespace) (arg : str)
    (stages : list str) :
  effective_screenshare args = Some arg ->
  build_gst_launch_args (Some u) args = Ok stages ->
  exists width height startx starty source encoder caps sink,
    parse_screenshare_argument arg = Ok (Some (width, height, startx, starty)) /\
    ximagesrc_stage startx (startx + width - 1) starty (starty + height - 1)
      = Ok source /\
    x264enc_stage args = Ok encoder /\ caps_stage args = Ok caps /\
    srtsink_stage u args = Ok sink /\
    stages = [ "gst-launch-1.0" : str; source;
               "! queue" : str; "! videoconvert" : str; "! clockoverlay" : str;
               encoder; caps;
               "! mpegtsmux" : str; "! queue" : str;
               sink ].
Proof.
  intros He Hb. unfold build_gst_launch_args in Hb. rewrite He in Hb.
  destruct (parse_screenshare_argument arg) as [[[[[w h] x] y] |] | e] eqn:Hp;
    cbn [bind] in Hb; try discriminate.
  destruct (ximagesrc_stage x (x + w - 1) y (y + h - 1)) as [source | e] eqn:Hs;
    cbn [bind] in Hb; [| discriminate].
  destruct (x264enc_stage args) as [encoder | e] eqn:Hx;
    cbn [bind] in Hb; [| discriminate].
  destruct (caps_stage args) as [caps | e] eqn:Hc;
    cbn [bind read_local] in Hb; [| discriminate].
  destruct (srtsink_stage u args) as [sink | e] eqn:Hk;
    cbn [bind] in Hb; [| discriminate].
  injection Hb as <-.
  exists w, h, x, y, source, encoder, caps, sink. repeat split; assumption.
Qed.

Lemma build_view (u : str) (args : Namespace) :
  effective_screenshare args = None ->
  build_gst_launch_args (Some u) args =
    Ok [ "gst-launch-1.0" : str; srtsrc_stage u args;
         "! queue" : str; "! tsdemux" : str; "! h264parse" : str;
         "! video/x-h264" : str; "! avdec_h264" : str;
         "! autovideosink sync=false" : str ].
Proof.
  intros He. unfold build_gst_launch_args. rewrite He. reflexivity.
Qed.

(** The network stage of a built pipeline is the sink stage or the source
    stage. *)
Lemma build_network_stage (u : str) (args : Namespace) (stages : list str) :
  build_gst_launch_args (Some u) args = Ok stages ->
  (srtsink_stage u args = Ok (last stages []) /\
   In (last stages []) stages /\ effective_screenshare args <> None) \/
  (nth 1 stages [] = srtsrc_stage u args /\
   In (srtsrc_stage u args) stages /\ effective_screenshare args = None).
Proof.
  intros Hb. destruct (effective_screenshare args) as [arg |] eqn:He.
  - left.
    destruct (build_screenshare_inv u args arg stages He Hb)
      as (w & h & x & y & source & encoder & caps & sink & _ & _ & _ & _ & Hk & ->).
    cbn [last]. split; [exact Hk |]. split; [simpl; tauto | discriminate].
  - right. rewrite (build_view u args He) in Hb. injection Hb as <-.
    split; [reflexivity |]. split; [simpl; tauto | reflexivity].
Qed.



(** ** Optional parameters of the network stage *)

Lemma passphrase_args_cases (args : Namespace) :
  (truthy (passphrase args) = false /\ passphrase_args args = []) \/
  (exists p, passphrase args = Some p /\ p <> [] /\
             passphrase_args args = [passphrase_parameter ++ p]).
Proof.
  unfold passphrase_args. destruct (passphrase args) as [[| c p] |]; simpl.
  - left. split; reflexivity.
  - right. exists (c :: p). repeat split. discriminate.
  - left. split; reflexivity.
Qed.

Lemma passphrase_args_falsy (args : Namespace) :
  truthy (passphrase args) = false -> passphrase_args args = [].
Proof.
  intros Ht. unfold passphrase_args. rewrite Ht. reflexivity.
Qed.

Lemma srtsink_stage_rule (u : str) (args : Namespace) (sink : str) :
  srtsink_stage u args = Ok sink -> optional_arguments_rule u args sink.
Proof.
  intros Hk. apply srtsink_stage_ok in Hk. subst sink.
  unfold optional_arguments_rule, concat_lists,
    fec_parameter, passphrase_parameter.
  split; [| split].
  - intros Hfec Ht Hu1 Hu2.
    rewrite Hfec, (passphrase_args_falsy args Ht). simpl join. split.
    + apply (token_not_in_sink "p" "acketfilter=fec" "! srtsink uri=" u "latency=" []);
        try reflexivity; [discriminate | assumption].
    + apply (token_not_in_sink "p" "assphrase=" "! srtsink uri=" u "latency=" []);
        try reflexivity; [discriminate | assumption].
  - intros Hfec. rewrite Hfec. apply contains_occurs.
    exists ("! srtsink uri=" ++ u ++ " latency=" ++ str_of_int (latency args) ++ " "),
      (",cols:3,rows:-3,layout:staircase,arq:always"
         ++ match passphrase_args args with [] => [] | pp :: _ => " " ++ pp end).
    destruct (passphrase_args_cases args) as [[_ ->] | (p & _ & _ & ->)];
      simpl; repeat (rewrite <- app_assoc; simpl); reflexivity.
  - intros p Hp Hne.
    destruct (passphrase_args_cases args) as [[Ht _] | (p' & Hp' & _ & ->)].
    + rewrite Hp in Ht. destruct p; [congruence | discriminate].
    + assert (p' = p) by congruence. subst p'.
      destruct (fec args).
      * exists ("! srtsink uri=" ++ u ++ " latency=" ++ str_of_int (latency args)
                  ++ " packetfilter=fec,cols:3,rows:-3,layout:staircase,arq:always").
        simpl. repeat (rewrite <- app_assoc; simpl). reflexivity.
      * exists ("! srtsink uri=" ++ u ++ " latency=" ++ str_of_int (latency args)).
        simpl. repeat (rewrite <- app_assoc; simpl). reflexivity.
Qed.

Lemma srtsrc_stage_rule (u : str) (args : Namespace) :
  optional_arguments_rule u args (srtsrc_stage u args).
Proof.
  unfold optional_arguments_rule, srtsrc_stage, concat_lists,
    fec_parameter, passphrase_parameter.
  split; [| split].
  - intros Hfec Ht Hu1 Hu2.
    rewrite Hfec, (passphrase_args_falsy args Ht). simpl join. split.
    + apply (token_not_in_source "p" "acketfilter=fec" "srtsrc uri=" u []);
        try reflexivity; assumption.
    + apply (token_not_in_source "p" "assphrase=" "srtsrc uri=" u []);
        try reflexivity; assumption.
  - intros Hfec. rewrite Hfec. apply contains_occurs.
    exists ("srtsrc uri=" ++ u ++ " "),
      (match passphrase_args args with [] => [] | pp :: _ => " " ++ pp end).
    destruct (passphrase_args_cases args) as [[_ ->] | (p & _ & _ & ->)];
      simpl; repeat (rewrite <- app_assoc; simpl); reflexivity.
  - intros p Hp Hne.
    destruct (passphrase_args_cases args) as [[Ht _] | (p' & Hp' & _ & ->)].
    + rewrite Hp in Ht. destruct p; [congruence | discriminate].
    + assert (p' = p) by congruence. subst p'.
      destruct (fec args).
      * exists ("srtsrc uri=" ++ u ++ " packetfilter=fec").
        simpl. repeat (rewrite <- app_assoc; simpl). reflexivity.
      * exists ("srtsrc uri=" ++ u).
        simpl. repeat (rewrite <- app_assoc; simpl). reflexivity.
Qed.

(** C7, as stated: with FEC off and no passphrase the network stage holds no
    passphrase parameter.  The port is copied into the URI as text (it is a
    string so that gstreamer SRT URL parameters can be given with it), and
    the stage then holds whatever parameter the port carries. *)
Lemma uri_parameter_in_stage :
  let args := listen_view ("5000?passphrase=abc" : str) in
  fec args = false /\ passphrase args = None /\
  exists stages,
    pipeline no_dns args = Ok stages /\
    nth 1 stages [] = srtsrc_stage ("srt://:5000?passphrase=abc" : str) args /\
    contains (nth 1 stages []) passphrase_parameter = true.
Proof.
  cbv zeta. split; [reflexivity | split; [reflexivity |]].
  eexists. split; [vm_compute; reflexivity |].
  split; vm_compute; reflexivity.
Qed.

(** C7, amended.  The network stage of every built pipeline is the sink or
    the source stage, and it obeys the omission rule: when the URI itself
    holds neither parameter, FEC is off and the passphrase is unset or empty,
    the stage holds neither [packetfilter=fec] nor [passphrase=]; when FEC is
    on it holds [packetfilter=fec]; when a non-empty passphrase is set it
    ends with [ passphrase=] followed by exactly that value. *)
Theorem network_stage_optional_arguments (u : str) (args : Namespace) (stages : list str) :
  build_gst_launch_args (Some u) args = Ok stages ->
  exists stage,
    In stage stages /\
    (srtsink_stage u args = Ok stage \/ stage = srtsrc_stage u args) /\
    optional_arguments_rule u args stage.
Proof.
  intros Hb.
  destruct (build_network_stage u args stages Hb)
    as [(Hs & Hin & He) | (Hs & Hin & He)].
  - exists (last stages []). split; [exact Hin |]. split; [left; exact Hs |].
    apply srtsink_stage_rule. exact Hs.
  - exists (srtsrc_stage u args). split; [exact Hin |].
    split; [right; reflexivity |]. apply srtsrc_stage_rule.
Qed.

Lemma network_stage_optional_arguments_witness :
  exists stage,
    In stage [ "gst-launch-1.0" : str;
               "srtsrc uri=srt://203.0.113.5:5000 " : str;
               "! queue" : str; "! tsdemux" : str; "! h264parse" : str;
               "! video/x-h264" : str; "! avdec_h264" : str;
               "! autovideosink sync=false" : str ] /\
    (srtsink_stage "srt://203.0.113.5:5000" (listen_view "5000") = Ok stage \/
     stage = srtsrc_stage "srt://203.0.113.5:5000" (listen_view "5000")) /\
    optional_arguments_rule "srt://203.0.113.5:5000" (listen_view "5000") stage.
Proof.
  apply (network_stage_optional_arguments ("srt://203.0.113.5:5000" : str)
           (listen_view ("5000" : str))).
  vm_compute. reflexivity.
Defined.

(** C10.  An empty passphrase is treated as no passphrase: both network
    stages, and the whole run of [main], are the same as with the option
    unset; no passphrase argument is appended, and the stage holds no
    [passphrase=] unless the URI does. *)
Theorem empty_passphrase_is_unset (u : str) (args : Namespace) :
  passphrase_args (with_passphrase (Some []) args) = [] /\
  srtsink_stage u (with_passphrase (Some []) args)
    = srtsink_stage u (with_passphrase None args) /\
  srtsrc_stage u (with_passphrase (Some []) args)
    = srtsrc_stage u (with_passphrase None args) /\
  srtsink_stage u (with_passphrase (Some []) args)
    = (l <- format_int (latency args) ;;
       Ok ("! srtsink uri=" ++ u ++ " latency=" ++ l ++ " "
             ++ (if fec args
                 then ("packetfilter=fec,cols:3,rows:-3,layout:staircase,arq:always" : str)
                 else []))) /\
  srtsrc_stage u (with_passphrase (Some []) args)
    = "srtsrc uri=" ++ u ++ " "
        ++ (if fec args then ("packetfilter=fec" : str) else []) /\
  (forall gethostbyname run_shell argv,
     main gethostbyname run_shell argv (with_passphrase (Some []) args)
     = main gethostbyname run_shell argv (with_passphrase None args)) /\
  (contains u passphrase_parameter = false ->
   (forall sink,
      srtsink_stage u (with_passphrase (Some []) args) = Ok sink ->
      contains sink passphrase_parameter = false) /\
   contains (srtsrc_stage u (with_passphrase (Some []) args))
     passphrase_parameter = false).
Proof.
  split; [reflexivity |]. split; [reflexivity |]. split; [reflexivity |].
  split; [unfold srtsink_stage; cbn [with_passphrase fec latency];
          destruct (fec args); reflexivity |].
  split; [unfold srtsrc_stage; cbn [with_passphrase fec];
          destruct (fec args); reflexivity |].
  split; [reflexivity |].
  intros Hu. split.
  - intros sink Hk. apply srtsink_stage_ok in Hk. subst sink.
    unfold concat_lists, passphrase_parameter.
    cbn [passphrase_args with_passphrase passphrase truthy fec latency].
    apply (token_not_in_sink "p" "assphrase=" "! srtsink uri=" u "latency=");
      try reflexivity; [discriminate | assumption |].
    destruct (fec args); vm_compute; reflexivity.
  - unfold srtsrc_stage, concat_lists, passphrase_parameter.
    cbn [passphrase_args with_passphrase passphrase truthy fec latency].
    apply (token_not_in_source "p" "assphrase=" "srtsrc uri=" u);
      try reflexivity; [assumption |].
    destruct (fec args); vm_compute; reflexivity.
Qed.

Lemma empty_passphrase_witness :
  (forall sink,
     srtsink_stage "srt://:5000"
       (with_passphrase (Some []) (listen_view "5000")) = Ok sink ->
     contains sink passphrase_parameter = false) /\
  contains (srtsrc_stage "srt://:5000" (with_passphrase (Some []) (listen_view "5000")))
    passphrase_parameter = false.
Proof.
  apply (proj2 (proj2 (proj2 (proj2 (proj2 (proj2
           (empty_passphrase_is_unset ("srt://:5000" : str)
              (listen_view ("5000" : str))))))))).
  vm_compute. reflexivity.
Defined.

(** ** Target URI *)

Lemma split_no_sep (sep : ascii) (s : str) :
  ~ In sep s -> split sep s = [s].
Proof.
  induction s as [| c s IH]; intros Hs; [reflexivity |].
  simpl. destruct (Ascii.eqb c sep) eqn:Hc.
  - apply Ascii.eqb_eq in Hc. exfalso. apply Hs. left. exact Hc.
  - rewrite IH; [reflexivity |]. intros Hin. apply Hs. right. exact Hin.
Qed.

Lemma split_once (sep : ascii) (a b : str) :
  ~ In sep a -> ~ In sep b -> split sep (a ++ sep :: b) = [a; b].
Proof.
  induction a as [| c a IH]; intros Ha Hb.
  - simpl. rewrite Ascii.eqb_refl, (split_no_sep sep b Hb). reflexivity.
  - simpl. destruct (Ascii.eqb c sep) eqn:Hc.
    + apply Ascii.eqb_eq in Hc. exfalso. apply Ha. left. exact Hc.
    + rewrite IH; [reflexivity | | exact Hb].
      intros Hin. apply Ha. right. exact Hin.
Qed.

(** C8, as stated: for every configuration the listen role with port [P]
    yields [srt://:P], and the call role with address [A] and port [P] yields
    [srt://A:P].  An empty port is taken for an option that was not given,
    and no URI is assigned; a port that holds a colon makes a third piece of
    the call target, and the unpacking of line 144 fails. *)
Lemma empty_port_gives_no_uri :
  ~ (forall (gethostbyname : str -> pyresult str) (args : Namespace) (P : str),
       listen_port args = Some P ->
       resolve_uri gethostbyname args = Ok (Some ("srt://:" ++ P))) /\
  ~ (forall (gethostbyname : str -> pyresult str) (args : Namespace)
            (hostname port A : str),
       truthy (listen_port args) = false ->
       call args = Some (hostname ++ ":" ++ port) ->
       gethostbyname hostname = Ok A ->
       resolve_uri gethostbyname args = Ok (Some ("srt://" ++ A ++ ":" ++ port))).
Proof.
  split.
  - intros H. specialize (H no_dns (listen_view []) [] eq_refl).
    discriminate H.
  - intros H.
    specialize (H sample_dns (call_view ("example.org:5000:1" : str))
                  ("example.org" : str) ("5000:1" : str) ("203.0.113.5" : str)
                  eq_refl eq_refl).
    assert (Hd : sample_dns ("example.org" : str) = Ok ("203.0.113.5" : str))
      by (vm_compute; reflexivity).
    specialize (H Hd).
    assert (Hr : resolve_uri sample_dns (call_view ("example.org:5000:1" : str))
                 = Raise ValueError) by (vm_compute; reflexivity).
    rewrite Hr in H. discriminate H.
Qed.

(** C8, amended.  A non-empty listen port [P] gives exactly [srt://:P]; a
    call target [host:port] with a single colon, whose host resolves to the
    address [A], gives exactly [srt://A:port]. *)
Theorem target_uri (gethostbyname : str -> pyresult str) (args : Namespace) :
  (forall P : str,
     listen_port args = Some P -> P <> [] ->
     resolve_uri gethostbyname args = Ok (Some ("srt://:" ++ P))) /\
  (forall hostname port A : str,
     truthy (listen_port args) = false ->
     call args = Some (hostname ++ ":" ++ port) ->
     ~ In ":"%char hostname -> ~ In ":"%char port ->
     gethostbyname hostname = Ok A ->
     resolve_uri gethostbyname args = Ok (Some ("srt://" ++ A ++ ":" ++ port))).
Proof.
  split.
  - intros P HP Hne. unfold resolve_uri. rewrite HP.
    destruct P as [| c P]; [congruence |]. reflexivity.
  - intros hostname port A Hl Hc Hh Hp HA. unfold resolve_uri.
    rewrite Hl, Hc.
    assert (Ht : truthy (Some (hostname ++ ":" ++ port)) = true)
      by (destruct hostname; reflexivity).
    rewrite Ht. cbn [app list_ascii_of_string].
    rewrite (split_once ":" hostname port Hh Hp), HA. reflexivity.
Qed.

Lemma target_uri_witness :
  resolve_uri sample_dns (listen_view "5000") = Ok (Some ("srt://:5000" : str)) /\
  resolve_uri sample_dns (call_view "example.org:5000")
    = Ok (Some ("srt://203.0.113.5:5000" : str)).
Proof.
  split.
  - apply (proj1 (target_uri sample_dns (listen_view ("5000" : str))) ("5000" : str)).
    + reflexivity.
    + discriminate.
  - apply (proj2 (target_uri sample_dns (call_view ("example.org:5000" : str)))
             ("example.org" : str) ("5000" : str) ("203.0.113.5" : str)).
    + reflexivity.
    + reflexivity.
    + simpl. intuition discriminate.
    + simpl. intuition discriminate.
    + vm_compute. reflexivity.
Defined.

Example view_call_example :
  pipeline sample_dns (call_view "example.org:5000") =
    Ok [ "gst-launch-1.0" : str;
         "srtsrc uri=srt://203.0.113.5:5000 packetfilter=fec passphrase=secret" : str;
         "! queue" : str; "! tsdemux" : str; "! h264parse" : str;
         "! video/x-h264" : str; "! avdec_h264" : str;
         "! autovideosink sync=false" : str ].
Proof. vm_compute. reflexivity. Qed.

(** ** Failures and exit status *)

(** C3.  A custom rectangle that does not match is not reported: the parser
    returns [None], [main] unpacks it without a check and the [TypeError]
    escapes, whatever the other options are; and an empty rectangle string is
    not noticed at all, the view pipeline is built and run. *)
Theorem bad_rectangle_not_reported
    (gethostbyname : str -> pyresult str) (run_shell : str -> Z)
    (argv : list str) :
  (forall (args : Namespace) (arg : str) (uri : option str),
     screenshare_rectangle args = Some arg -> arg <> [] ->
     ~ has_rectangle_prefix arg ->
     resolve_uri gethostbyname args = Ok uri ->
     main gethostbyname run_shell argv args = Raise TypeError) /\
  exists o,
    main gethostbyname run_shell argv (listen_5000 (Some ([] : str))) = Ok o /\
    child o <> None.
Proof.
  split.
  - intros args arg uri Hr Hne Hbad Huri.
    apply parse_none_iff in Hbad.
    unfold main, pipeline, build_gst_launch_args, effective_screenshare.
    rewrite Huri, Hr. cbn [bind].
    destruct arg as [| c arg]; [congruence |].
    cbn [truthy]. rewrite Hbad. reflexivity.
  - eexists. split; [unfold main; cbn; reflexivity |]. cbn. discriminate.
Qed.

Lemma bad_rectangle_witness :
  main no_dns (fun _ => 0) [] (listen_5000 (Some ("1920x1080" : str)))
  = Raise TypeError.
Proof.
  apply (proj1 (bad_rectangle_not_reported no_dns (fun _ => 0) [])
           (listen_5000 (Some ("1920x1080" : str))) ("1920x1080" : str)
           (Some ("srt://:5000" : str))).
  - reflexivity.
  - discriminate.
  - apply (proj1 (parse_none_iff _)). vm_compute. reflexivity.
  - reflexivity.
Defined.

(** C4, as stated: the exit status of the program is that of the child.  The
    result of [subprocess.run] is dropped and [main] returns normally. *)
Lemma child_status_not_propagated :
  ~ (forall (gethostbyname : str -> pyresult str) (run_shell : str -> Z)
            (argv : list str) (args : Namespace) (o : outcome)
            (command : str) (returncode : Z),
       main gethostbyname run_shell argv args = Ok o ->
       child o = Some (command, returncode) ->
       exit_status (main gethostbyname run_shell argv args) = returncode).
Proof.
  intros H.
  specialize (H no_dns (fun _ => 1) [] (listen_view ("5000" : str))).
  cbn in H. specialize (H _ _ 1 eq_refl eq_refl). discriminate.
Qed.

(** C4, amended.  Once the pipeline is built, [main] prints the two texts
    and returns normally; without [--print-command] it has run the composed
    command, and only that, once as a child.  The exit status is therefore 0
    whatever the return code of the child is. *)
Theorem exit_status_ignores_child
    (gethostbyname : str -> pyresult str) (run_shell : str -> Z)
    (argv : list str) (args : Namespace) (stages : list str) :
  pipeline gethostbyname args = Ok stages ->
  main gethostbyname run_shell argv args =
    Ok {| printed :=
            [ nl ++ "Your CLI flags:" ++ nl ++ nl ++ cli_flags argv ++ nl;
              nl ++ "Your gstreamer invocation:" ++ nl ++ nl
                ++ compose_command stages ++ nl ];
          child :=
            if print_command args then None
            else Some (compose_command stages,
                       run_shell (compose_command stages)) |} /\
  exit_status (main gethostbyname run_shell argv args) = 0.
Proof.
  intros Hp.
  assert (Hm : main gethostbyname run_shell argv args =
    Ok {| printed :=
            [ nl ++ "Your CLI flags:" ++ nl ++ nl ++ cli_flags argv ++ nl;
              nl ++ "Your gstreamer invocation:" ++ nl ++ nl
                ++ compose_command stages ++ nl ];
          child :=
            if print_command args then None
            else Some (compose_command stages,
                       run_shell (compose_command stages)) |}).
  { unfold main. rewrite Hp. cbn [bind].
    destruct (print_command args); reflexivity. }
  split; [exact Hm |]. rewrite Hm. reflexivity.
Qed.

Lemma exit_status_ignores_child_witness :
  exit_status (main no_dns (fun _ => 1) [] (listen_view "5000")) = 0.
Proof.
  refine (proj2 (exit_status_ignores_child no_dns (fun _ => 1) []
                   (listen_view ("5000" : str)) _ _)).
  reflexivity.
Defined.

(** * Further properties of the code *)

(** ** Display strings and the parser *)

(** X1.  Every entry of [list_screen_sizes] stands at the index of its
    display, and for a display whose four numbers are non-negative and within
    the limit on digits (as every C [int] is) it parses back to exactly that
    geometry. *)
Theorem screen_sizes_round_trip (geometries : list Rect) (i : nat) (g : Rect) :
  nth_error geometries i = Some g ->
  0 <= Width g -> 0 <= Height g -> 0 <= X g -> 0 <= Y g ->
  fits (Width g) = true -> fits (Height g) = true ->
  fits (X g) = true -> fits (Y g) = true ->
  List.length (list_screen_sizes geometries) = List.length geometries /\
  exists s,
    nth_error (list_screen_sizes geometries) i = Some s /\
    parse_screenshare_argument s = Ok (Some (Width g, Height g, X g, Y g)).
Proof.
  intros Hi Hw Hh Hx Hy Fw Fh Fx Fy. unfold list_screen_sizes.
  split; [apply length_map |].
  exists (geometry_string g). split.
  - apply map_nth_error. exact Hi.
  - apply screen_geometry_parses; assumption.
Qed.

Lemma screen_sizes_round_trip_witness :
  List.length (list_screen_sizes
            [ {| Width := 1920; Height := 1080; X := 0; Y := 0 |};
              {| Width := 1280; Height := 1024; X := 1920; Y := 56 |} ]) = 2%nat /\
  exists s,
    nth_error (list_screen_sizes
                 [ {| Width := 1920; Height := 1080; X := 0; Y := 0 |};
                   {| Width := 1280; Height := 1024; X := 1920; Y := 56 |} ]) 1
      = Some s /\
    parse_screenshare_argument s = Ok (Some (1280, 1024, 1920, 56)).
Proof.
  apply (screen_sizes_round_trip
           [ {| Width := 1920; Height := 1080; X := 0; Y := 0 |};
             {| Width := 1280; Height := 1024; X := 1920; Y := 56 |} ] 1
           {| Width := 1280; Height := 1024; X := 1920; Y := 56 |});
    solve [ reflexivity | simpl; lia
          | apply small_fits; vm_compute; reflexivity ].
Defined.

Ltac peel_field Heq Hd n :=
  let Hn := fresh "Hn" in
  let Hr := fresh "Hr" in
  let t := fresh "t" in
  let Ht := fresh "Ht" in
  destruct (str_of_int_cases n) as [(Hn & Hr & _) | (Hn & t & Ht)];
  [ apply run_split_unique in Heq;
    [ destruct Heq as [_ Heq]; injection Heq as Heq
    | exact (proj2 Hr) | exact (proj2 Hd) | reflexivity | reflexivity ]
  | rewrite Ht in Heq; symmetry in Heq;
    apply (run_not_prefix _ _ _ Hd) in Heq; [contradiction | reflexivity] ].

Lemma negative_field_no_prefix (w h x y : Z) :
  w < 0 \/ h < 0 \/ x < 0 \/ y < 0 ->
  ~ has_rectangle_prefix
      (str_of_int w ++ "x" ++ str_of_int h ++ "+" ++ str_of_int x ++ "," ++ str_of_int y).
Proof.
  intros Hneg (p & rest & (dw & dh & dx & dy & Hw & Hh & Hx & Hy & ->) & Heq).
  repeat (rewrite <- app_assoc in Heq; cbn [app list_ascii_of_string] in Heq).
  peel_field Heq Hw w.
  peel_field Heq Hh h.
  peel_field Heq Hx x.
  destruct (str_of_int_cases y) as [(Hn2 & _) | (_ & t & Ht)]; [lia |].
  rewrite Ht in Heq. symmetry in Heq.
  apply (run_not_prefix _ _ _ Hy) in Heq; [contradiction | reflexivity].
Qed.

(** Whatever string ends up in [args.screenshare], [main] fails on it with a
    [TypeError] when the parser does not accept it. *)
Lemma unparsable_screenshare_raises
    (gethostbyname : str -> pyresult str) (run_shell : str -> Z)
    (argv : list str) (args : Namespace) (arg : str) (uri : option str) :
  effective_screenshare args = Some arg ->
  parse_screenshare_argument arg = Ok None ->
  resolve_uri gethostbyname args = Ok uri ->
  main gethostbyname run_shell argv args = Raise TypeError.
Proof.
  intros He Hp Hu. unfold main, pipeline, build_gst_launch_args.
  rewrite Hu. cbn [bind]. rewrite He, Hp. reflexivity.
Qed.

(** X2.  A display with a negative number in its geometry (a monitor placed
    left of or above the primary one has a negative offset) gets a string the
    parser rejects, and choosing that display makes [main] fail with a
    [TypeError]. *)
Theorem negative_geometry_rejected (g : Rect) :
  Width g < 0 \/ Height g < 0 \/ X g < 0 \/ Y g < 0 ->
  parse_screenshare_argument (geometry_string g) = Ok None /\
  forall gethostbyname run_shell argv,
    main gethostbyname run_shell argv (listen_5000_screen g) = Raise TypeError.
Proof.
  intros Hneg.
  assert (Hp : parse_screenshare_argument (geometry_string g) = Ok None).
  { apply parse_none_iff. unfold geometry_string.
    apply negative_field_no_prefix. exact Hneg. }
  split; [exact Hp |].
  intros gethostbyname run_shell argv.
  apply (unparsable_screenshare_raises _ _ _ _ (geometry_string g)
           (Some ("srt://:5000" : str))); [reflexivity | exact Hp | reflexivity].
Qed.

Lemma negative_geometry_rejected_witness :
  parse_screenshare_argument
    (geometry_string {| Width := 1920; Height := 1080; X := -1920; Y := 0 |})
  = Ok None.
Proof.
  apply (proj1 (negative_geometry_rejected
                  {| Width := 1920; Height := 1080; X := -1920; Y := 0 |}
                  ltac:(simpl; lia))).
Defined.

(** X3.  What follows a well-formed rectangle is ignored as long as it does
    not start with a digit: the formatted rectangle of four non-negative
    numbers within the limit on digits, followed by any such text, parses to
    the same four numbers. *)
Theorem parse_ignores_tail (w h x y : Z) (tail : str) :
  0 <= w -> 0 <= h -> 0 <= x -> 0 <= y ->
  fits w = true -> fits h = true -> fits x = true -> fits y = true ->
  no_leading_digit tail = true ->
  parse_screenshare_argument (format_rectangle w h x y ++ tail)
  = Ok (Some (w, h, x, y)).
Proof.
  intros Hw Hh Hx Hy Fw Fh Fx Fy Htail. unfold format_rectangle.
  apply parse_formatted_tail; assumption.
Qed.

Lemma parse_ignores_tail_witness :
  parse_screenshare_argument (format_rectangle 640 480 10 20 ++ " and more")
  = Ok (Some (640, 480, 10, 20)).
Proof.
  apply (parse_ignores_tail 640 480 10 20 (" and more" : str));
    solve [ lia | reflexivity | apply small_fits; vm_compute; reflexivity ].
Defined.

Lemma digit_span (s : str) :
  exists ds rest,
    s = ds ++ rest /\ forallb is_digit ds = true /\ no_leading_digit rest = true.
Proof.
  induction s as [| c s (ds & rest & -> & Hall & Hrest)].
  - exists [], []. repeat split.
  - destruct (is_digit c) eqn:Hc.
    + exists (c :: ds), rest. repeat split; [| exact Hrest].
      simpl. rewrite Hc. exact Hall.
    + exists [], (c :: ds ++ rest). repeat split. simpl. rewrite Hc. reflexivity.
Qed.

(** X4.  When the parser returns a rectangle, the input starts with four
    digit runs separated by [x], [+] and [,]; the four numbers are the decimal
    values of these runs, and the last run is as long as it can be: no digit
    follows it. *)
Theorem parse_success_shape (s : str) (w h x y : Z) :
  parse_screenshare_argument s = Ok (Some (w, h, x, y)) ->
  exists dw dh dx dy rest,
    digit_run dw /\ digit_run dh /\ digit_run dx /\ digit_run dy /\
    s = (dw ++ "x" ++ dh ++ "+" ++ dx ++ "," ++ dy) ++ rest /\
    no_leading_digit rest = true /\
    w = int_digits dw /\ h = int_digits dh /\
    x = int_digits dx /\ y = int_digits dy.
Proof.
  intros Hp.
  destruct (re_match screenshare_argument_regex s) as [gs |] eqn:Hre;
    [| unfold parse_screenshare_argument in Hp; rewrite Hre in Hp; discriminate].
  destruct (re_match_sound _ _ _ Hre) as [rest0 Hm].
  destruct (matches_rectangle_inv _ _ _ Hm)
    as (dw & dh & dx & dy & Hw & Hh & Hx & Hy & -> & Hs).
  destruct (digit_span rest0) as (ds & rest & -> & Hds & Hrest).
  assert (Hy' : digit_run (dy ++ ds)).
  { split; [destruct Hy as [Hne _]; destruct dy; [congruence | discriminate] |].
    rewrite forallb_app, (proj2 Hy), Hds. reflexivity. }
  pose proof (re_match_rectangle dw dh dx (dy ++ ds) rest Hw Hh Hx Hy' Hrest) as Hre'.
  assert (Hs' : s = (dw ++ "x" ++ dh ++ "+" ++ dx ++ "," ++ dy ++ ds) ++ rest).
  { rewrite Hs. repeat (rewrite <- app_assoc; cbn [app list_ascii_of_string]).
    reflexivity. }
  rewrite <- Hs', Hre in Hre'. injection Hre' as Hdy.
  rewrite <- (app_nil_r dy) in Hdy at 1. apply app_inv_head in Hdy. subst ds.
  rewrite app_nil_l in Hs.
  exists dw, dh, dx, dy, rest. repeat (split; [assumption |]).
  unfold parse_screenshare_argument in Hp. rewrite Hre in Hp.
  unfold group in Hp. cbn [Nat.pred nth_error bind] in Hp.
  destruct (int dw) as [vw | e] eqn:Ew; [| discriminate].
  destruct (int dh) as [vh | e] eqn:Eh; [| discriminate].
  destruct (int dx) as [vx | e] eqn:Ex; [| discriminate].
  destruct (int dy) as [vy | e] eqn:Ey; [| discriminate].
  cbn [bind] in Hp. injection Hp as -> -> -> ->.
  split; [exact (proj1 (int_fits dw w Hw Ew)) |].
  split; [exact (proj1 (int_fits dh h Hh Eh)) |].
  split; [exact (proj1 (int_fits dx x Hx Ex)) |].
  exact (proj1 (int_fits dy y Hy Ey)).
Qed.

Lemma parse_success_shape_witness :
  exists dw dh dx dy rest,
    digit_run dw /\ digit_run dh /\ digit_run dx /\ digit_run dy /\
    ("007x2+3,45 px" : str) = (dw ++ "x" ++ dh ++ "+" ++ dx ++ "," ++ dy) ++ rest /\
    no_leading_digit rest = true /\
    7 = int_digits dw /\ 2 = int_digits dh /\
    3 = int_digits dx /\ 45 = int_digits dy.
Proof.
  apply (parse_success_shape ("007x2+3,45 px" : str) 7 2 3 45).
  vm_compute. reflexivity.
Defined.


(** ** Splitting the call target *)

Lemma split_length (sep : ascii) (s : str) :
  List.length (split sep s) = S (count_occ ascii_dec s sep).
Proof.
  induction s as [| c s IH]; [reflexivity |].
  cbn [split]. destruct (Ascii.eqb c sep) eqn:Hc.
  - apply Ascii.eqb_eq in Hc. subst c.
    rewrite count_occ_cons_eq by reflexivity. simpl. rewrite IH. reflexivity.
  - apply Ascii.eqb_neq in Hc.
    rewrite count_occ_cons_neq by exact Hc.
    destruct (split sep s) as [| cur rest]; [discriminate IH | exact IH].
Qed.

Lemma join_cons_char (sep : str) (c : ascii) (cur : str) (rest : list str) :
  join sep ((c :: cur) :: rest) = c :: join sep (cur :: rest).
Proof.
  destruct rest; reflexivity.
Qed.

(** X6.  [s.split(sep)] as used on the call target: joining the pieces with
    the separator gives the string back, there is one piece more than there
    are separators, and no piece holds a separator. *)
Theorem split_join (sep : ascii) (s : str) :
  join [sep] (split sep s) = s /\
  List.length (split sep s) = S (count_occ ascii_dec s sep) /\
  Forall (fun piece => ~ In sep piece) (split sep s).
Proof.
  split; [| split; [apply split_length |]].
  - induction s as [| c s IH]; [reflexivity |].
    cbn [split]. destruct (Ascii.eqb c sep) eqn:Hc.
    + apply Ascii.eqb_eq in Hc. subst c.
      pose proof (split_length sep s) as Hlen.
      destruct (split sep s) as [| cur rest]; [discriminate Hlen |].
      change (join [sep] ([] :: cur :: rest))
        with ([] ++ [sep] ++ join [sep] (cur :: rest)).
      rewrite IH. reflexivity.
    + pose proof (split_length sep s) as Hlen.
      destruct (split sep s) as [| cur rest]; [discriminate Hlen |].
      rewrite join_cons_char, IH. reflexivity.
  - induction s as [| c s IH]; [repeat constructor; intros [] |].
    cbn [split]. destruct (Ascii.eqb c sep) eqn:Hc.
    + constructor; [intros [] | exact IH].
    + apply Ascii.eqb_neq in Hc.
      destruct (split sep s) as [| cur rest].
      * repeat constructor. intros [Heq | []]. congruence.
      * inversion IH as [| ? ? Hcur Hrest]; subst.
        constructor; [| exact Hrest].
        intros [Heq | Hin]; [congruence | exact (Hcur Hin)].
Qed.

(** X7.  A call target that does not hold exactly one colon (a bare host
    name, an IPv6 address, [host:port:extra]) makes [main] fail with a
    [ValueError], before any name is resolved. *)
Theorem call_target_needs_one_colon
    (gethostbyname : str -> pyresult str) (run_shell : str -> Z)
    (argv : list str) (args : Namespace) (target : str) :
  truthy (listen_port args) = false ->
  call args = Some target -> target <> [] ->
  count_occ ascii_dec target ":"%char <> 1%nat ->
  main gethostbyname run_shell argv args = Raise ValueError.
Proof.
  intros Hl Hc Hne Hcount.
  pose proof (split_length ":" target) as Hlen.
  unfold main, pipeline, resolve_uri. rewrite Hl, Hc.
  destruct target as [| c t]; [congruence |]. cbn [truthy].
  destruct (split ":" (c :: t)) as [| a [| b [| d l]]]; try reflexivity.
  cbn [List.length] in Hlen. injection Hlen as Hlen.
  symmetry in Hlen. contradiction.
Qed.

Lemma call_target_needs_one_colon_witness :
  main no_dns (fun _ => 0) [] (call_view "localhost") = Raise ValueError /\
  main sample_dns (fun _ => 0) [] (call_view "example.org:5000:1") = Raise ValueError.
Proof.
  split.
  - apply (call_target_needs_one_colon no_dns (fun _ => 0) []
             (call_view ("localhost" : str)) ("localhost" : str));
      [reflexivity | reflexivity | discriminate | vm_compute; discriminate].
  - apply (call_target_needs_one_colon sample_dns (fun _ => 0) []
             (call_view ("example.org:5000:1" : str)) ("example.org:5000:1" : str));
      [reflexivity | reflexivity | discriminate | vm_compute; discriminate].
Defined.

(** X8.  When the host of the call target cannot be resolved, the exception
    of the resolver is the one [main] ends with: nothing is built, printed or
    run. *)
Theorem resolution_failure_propagates
    (gethostbyname : str -> pyresult str) (run_shell : str -> Z)
    (argv : list str) (args : Namespace) (hostname port : str) (e : exn) :
  truthy (listen_port args) = false ->
  call args = Some (hostname ++ ":" ++ port) ->
  ~ In ":"%char hostname -> ~ In ":"%char port ->
  gethostbyname hostname = Raise e ->
  main gethostbyname run_shell argv args = Raise e.
Proof.
  intros Hl Hc Hh Hp He. unfold main, pipeline, resolve_uri.
  rewrite Hl, Hc.
  assert (Ht : truthy (Some (hostname ++ ":" ++ port)) = true)
    by (destruct hostname; reflexivity).
  rewrite Ht. cbn [app list_ascii_of_string].
  rewrite (split_once ":" hostname port Hh Hp), He. reflexivity.
Qed.

Lemma resolution_failure_propagates_witness :
  main sample_dns (fun _ => 0) [] (call_view "nowhere.invalid:5000")
  = Raise gaierror.
Proof.
  apply (resolution_failure_propagates sample_dns (fun _ => 0) []
           (call_view ("nowhere.invalid:5000" : str))
           ("nowhere.invalid" : str) ("5000" : str) gaierror).
  - reflexivity.
  - reflexivity.
  - simpl. intuition discriminate.
  - simpl. intuition discriminate.
  - vm_compute. reflexivity.
Defined.

(** X9.  An empty [--listen-port] (or an empty [--call]) is taken for an
    option that was not given: [uri] is never assigned, and [main] fails with
    an [UnboundLocalError] where the source stage (view mode) or the sink
    stage (screenshare mode, once the rectangle has parsed and the stages
    before the sink have been formatted) reads it. *)
Theorem empty_target_leaves_uri_unassigned
    (gethostbyname : str -> pyresult str) (run_shell : str -> Z)
    (argv : list str) (args : Namespace) :
  truthy (listen_port args) = false -> truthy (call args) = false ->
  (effective_screenshare args = None \/
   exists arg width height startx starty,
     effective_screenshare args = Some arg /\
     parse_screenshare_argument arg = Ok (Some (width, height, startx, starty)) /\
     fits (startx + width - 1) = true /\ fits (starty + height - 1) = true /\
     fits (bitrate args) = true /\ fits (fps args) = true) ->
  main gethostbyname run_shell argv args = Raise UnboundLocalError.
Proof.
  intros Hl Hc Hmode. unfold main, pipeline, resolve_uri, build_gst_launch_args.
  rewrite Hl, Hc. cbn [bind].
  destruct Hmode as [-> | (arg & w & h & x & y & -> & Hp & Fx & Fy & Fb & Ff)];
    [reflexivity |].
  destruct (parse_fits arg _ _ _ _ Hp) as (_ & _ & Fsx & Fsy).
  rewrite Hp. cbn [bind]. unfold ximagesrc_stage, x264enc_stage, caps_stage.
  rewrite (format_int_fits _ Fsx), (format_int_fits _ Fx),
          (format_int_fits _ Fsy), (format_int_fits _ Fy),
          (format_int_fits _ Fb), (format_int_fits _ Ff).
  reflexivity.
Qed.

Lemma empty_target_leaves_uri_unassigned_witness :
  main no_dns (fun _ => 0) [] (listen_view []) = Raise UnboundLocalError.
Proof.
  apply (empty_target_leaves_uri_unassigned no_dns (fun _ => 0) []
           (listen_view [])); [reflexivity | reflexivity | left; reflexivity].
Defined.

(** ** When [main] succeeds and how it fails *)






(** X12.  The resolver is consulted for one thing only, the host part of a
    call target: two resolvers that agree on it give the same run of [main],
    and with a listen port no name is resolved at all. *)
Theorem resolver_only_for_call_host
    (resolver1 resolver2 : str -> pyresult str) (run_shell : str -> Z)
    (argv : list str) (args : Namespace) :
  (truthy (listen_port args) = true \/
   forall target hostname port,
     call args = Some target -> split ":" target = [hostname; port] ->
     resolver1 hostname = resolver2 hostname) ->
  main resolver1 run_shell argv args = main resolver2 run_shell argv args.
Proof.
  intros H. unfold main, pipeline.
  assert (Hu : resolve_uri resolver1 args = resolve_uri resolver2 args).
  { unfold resolve_uri. destruct H as [-> | H]; [reflexivity |].
    destruct (truthy (listen_port args)); [reflexivity |].
    destruct (truthy (call args)); [| reflexivity].
    destruct (call args) as [target |]; [| reflexivity].
    specialize (H target).
    destruct (split ":" target) as [| a [| b [| d l]]]; try reflexivity.
    rewrite (H a b eq_refl eq_refl). reflexivity. }
  rewrite Hu. reflexivity.
Qed.

Lemma resolver_only_for_call_host_witness :
  main no_dns (fun _ => 0) [] (listen_view "5000")
  = main sample_dns (fun _ => 0) [] (listen_view "5000").
Proof.
  apply (resolver_only_for_call_host no_dns sample_dns (fun _ => 0) []
           (listen_view ("5000" : str))).
  left. reflexivity.
Defined.

(** ** What is printed and what is run *)

Lemma str_eqb_eq (a b : str) : str_eqb a b = true <-> a = b.
Proof.
  unfold str_eqb. destruct (list_eq_dec ascii_dec a b); split; congruence.
Qed.

Lemma str_eqb_neq (a b : str) : str_eqb a b = false <-> a <> b.
Proof.
  unfold str_eqb. destruct (list_eq_dec ascii_dec a b); split; congruence.
Qed.

(** X13.  The line of CLI flags is the same whether or not [--print-command]
    or [--ignore-gooey] was given, wherever it stands; arguments other than
    these two are all kept, in their order. *)
Theorem cli_flags_hides_print_command (before after : list str) :
  cli_flags (before ++ ["--print-command" : str] ++ after)
    = cli_flags (before ++ after) /\
  cli_flags (before ++ ["--ignore-gooey" : str] ++ after)
    = cli_flags (before ++ after) /\
  (~ In ("--print-command" : str) (before ++ after) ->
   ~ In ("--ignore-gooey" : str) (before ++ after) ->
   cli_flags (before ++ after) = join " " (before ++ after)).
Proof.
  unfold cli_flags. split; [| split].
  - rewrite !filter_app. reflexivity.
  - rewrite !filter_app. reflexivity.
  - intros Hp Hi. f_equal. apply forallb_filter_id. apply forallb_forall.
    intros a Ha. cbn [existsb]. rewrite orb_false_r.
    apply negb_true_iff, orb_false_iff. split; apply str_eqb_neq;
      intros ->; [apply Hi | apply Hp]; exact Ha.
Qed.

Lemma cli_flags_hides_print_command_witness :
  cli_flags (["niceshare.py" : str; "--view" : str] ++ ["--listen-port" : str; "5000" : str])
  = join " " (["niceshare.py" : str; "--view" : str] ++ ["--listen-port" : str; "5000" : str]).
Proof.
  apply (proj2 (proj2 (cli_flags_hides_print_command
                         ["niceshare.py" : str; "--view" : str]
                         ["--listen-port" : str; "5000" : str]))).
  - simpl. intuition discriminate.
  - simpl. intuition discriminate.
Defined.

(** X14.  The command that is printed is the command that is run:
    [--print-command] changes nothing in what is printed, it only leaves the
    child process out. *)
Theorem printed_command_is_run
    (gethostbyname : str -> pyresult str) (run_shell : str -> Z)
    (argv : list str) (args : Namespace) (o : outcome) :
  main gethostbyname run_shell argv (with_print_command false args) = Ok o ->
  exists command,
    child o = Some (command, run_shell command) /\
    nth 1 (printed o) [] =
      nl ++ "Your gstreamer invocation:" ++ nl ++ nl ++ command ++ nl /\
    main gethostbyname run_shell argv (with_print_command true args)
      = Ok {| printed := printed o; child := None |}.
Proof.
  unfold main, pipeline.
  change (resolve_uri gethostbyname (with_print_command false args))
    with (resolve_uri gethostbyname args).
  change (resolve_uri gethostbyname (with_print_command true args))
    with (resolve_uri gethostbyname args).
  destruct (resolve_uri gethostbyname args) as [uri | e]; [| discriminate].
  cbn [bind].
  change (build_gst_launch_args uri (with_print_command false args))
    with (build_gst_launch_args uri args).
  change (build_gst_launch_args uri (with_print_command true args))
    with (build_gst_launch_args uri args).
  destruct (build_gst_launch_args uri args) as [stages | e]; [| discriminate].
  cbn [bind with_print_command print_command negb].
  intros H. injection H as <-.
  exists (compose_command stages). repeat split.
Qed.

Lemma printed_command_is_run_witness :
  exists o command,
    main no_dns (fun _ => 3) [] (with_print_command false (listen_view "5000"))
      = Ok o /\
    child o = Some (command, 3) /\
    main no_dns (fun _ => 3) [] (with_print_command true (listen_view "5000"))
      = Ok {| printed := printed o; child := None |}.
Proof.
  refine (let H := printed_command_is_run no_dns (fun _ => 3) []
                     (listen_view ("5000" : str)) _ eq_refl in _).
  destruct H as (command & Hc & _ & Hdry).
  eexists _, command. split; [reflexivity | split; [exact Hc | exact Hdry]].
Defined.

(** ** The composed command *)

Lemma quote_free_app (a b : str) :
  quote_free a -> quote_free b -> quote_free (a ++ b).
Proof.
  unfold quote_free. intros Ha Hb. rewrite existsb_app, Ha, Hb. reflexivity.
Qed.

Lemma not_in_existsb (c : ascii) (s : str) :
  ~ In c s -> existsb (Ascii.eqb c) s = false.
Proof.
  intros Hc. destruct (existsb (Ascii.eqb c) s) eqn:He; [| reflexivity].
  apply existsb_exists in He. destruct He as (x & Hx & Heq).
  apply Ascii.eqb_eq in Heq. subst x. contradiction.
Qed.

Lemma quote_free_str_of_int (n : Z) : quote_free (str_of_int n).
Proof.
  apply not_in_existsb. intros Hin.
  apply str_of_int_chars in Hin. destruct Hin as [Hd | Heq].
  - vm_compute in Hd. discriminate.
  - discriminate.
Qed.

Lemma replace_quote_free (by_ s : str) :
  quote_free s -> replace "'" by_ s = s.
Proof.
  unfold quote_free, replace. induction s as [| c s IH]; [reflexivity |].
  cbn [existsb flat_map]. intros H. apply orb_false_iff in H.
  destruct H as [Hc Hs]. rewrite Ascii.eqb_sym in Hc. rewrite Hc, (IH Hs).
  reflexivity.
Qed.

(** A string with a blank and without a single quote is put between single
    quotes as it is. *)
Lemma shlex_quote_wraps (s : str) :
  In " "%char s -> quote_free s -> shlex_quote s = "'" ++ s ++ "'".
Proof.
  intros Hsp Hq. unfold shlex_quote.
  destruct s as [| c s]; [contradiction |].
  destruct (forallb shell_safe (c :: s)) eqn:Hsafe.
  - rewrite forallb_forall in Hsafe. specialize (Hsafe _ Hsp).
    vm_compute in Hsafe. discriminate.
  - rewrite (replace_quote_free _ _ Hq). reflexivity.
Qed.

Ltac quote_free_tac :=
  repeat first [ assumption | reflexivity
               | apply quote_free_str_of_int | apply quote_free_app ].

Lemma quote_free_passphrase_args (args : Namespace) :
  (forall p, passphrase args = Some p -> quote_free p) ->
  quote_free (join " " (passphrase_args args)) /\
  forall fec_arg : str,
    quote_free fec_arg ->
    quote_free (join " " (fec_arg :: passphrase_args args)).
Proof.
  intros Hp.
  destruct (passphrase_args_cases args) as [[_ ->] | (p & Hsome & _ & ->)].
  - split; [reflexivity | intros fec_arg Hf; exact Hf].
  - specialize (Hp p Hsome). cbn [join]. unfold passphrase_parameter.
    split; [| intros fec_arg Hf]; quote_free_tac.
Qed.

Lemma built_pipeline_text (u : str) (args : Namespace) (stages : list str) :
  build_gst_launch_args (Some u) args = Ok stages ->
  quote_free u -> (forall p, passphrase args = Some p -> quote_free p) ->
  In " "%char (join " " stages) /\ quote_free (join " " stages).
Proof.
  intros Hb Hu Hp.
  destruct (quote_free_passphrase_args args Hp) as [Hq0 Hq1].
  destruct (effective_screenshare args) as [arg |] eqn:He.
  - destruct (build_screenshare_inv u args arg stages He Hb)
      as (w & h & x & y & source & encoder & caps & sink
          & _ & Hs & Hx & Hc & Hk & ->).
    apply ximagesrc_stage_ok in Hs. apply x264enc_stage_ok in Hx.
    apply caps_stage_ok in Hc. apply srtsink_stage_ok in Hk.
    subst source encoder caps sink. cbn [join]. split.
    + apply in_or_app. right. left. reflexivity.
    + unfold concat_lists.
      destruct (fec args); cbn [List.concat app]; rewrite ?app_nil_r;
        [specialize (Hq1 _ (eq_refl : quote_free
           ("packetfilter=fec,cols:3,rows:-3,layout:staircase,arq:always" : str))) |];
        quote_free_tac.
  - rewrite (build_view u args He) in Hb. injection Hb as <-. cbn [join]. split.
    + apply in_or_app. right. left. reflexivity.
    + unfold srtsrc_stage, concat_lists.
      destruct (fec args); cbn [List.concat app]; rewrite ?app_nil_r;
        [specialize (Hq1 _ (eq_refl : quote_free ("packetfilter=fec" : str))) |];
        quote_free_tac.
Qed.

(** X15.  When neither the URI nor the passphrase holds a single quote, the
    command is the fixed nix-shell prefix followed by [--run] and the whole
    pipeline, stages joined by blanks, as it is between two single quotes. *)
Theorem command_holds_pipeline_verbatim
    (u : str) (args : Namespace) (stages : list str) :
  build_gst_launch_args (Some u) args = Ok stages ->
  quote_free u -> (forall p, passphrase args = Some p -> quote_free p) ->
  compose_command stages =
    nix_path ++ " nix-shell -p gst_all_1.gstreamer -p gst_all_1.gst-plugins-good"
      ++ " -p gst_all_1.gst-plugins-base -p gst_all_1.gst-plugins-bad"
      ++ " -p gst_all_1.gst-plugins-ugly -p gst_all_1.gst-libav"
      ++ " --run '" ++ join " " stages ++ "'".
Proof.
  intros Hb Hu Hp.
  destruct (built_pipeline_text u args stages Hb Hu Hp) as [Hsp Hq].
  unfold compose_command. rewrite (shlex_quote_wraps _ Hsp Hq).
  cbn [join]. repeat (rewrite <- app_assoc; cbn [app list_ascii_of_string]).
  reflexivity.
Qed.

Lemma command_holds_pipeline_verbatim_witness :
  compose_command
    [ "gst-launch-1.0" : str; "srtsrc uri=srt://:5000 " : str;
      "! queue" : str; "! tsdemux" : str; "! h264parse" : str;
      "! video/x-h264" : str; "! avdec_h264" : str;
      "! autovideosink sync=false" : str ] =
    nix_path ++ " nix-shell -p gst_all_1.gstreamer -p gst_all_1.gst-plugins-good"
      ++ " -p gst_all_1.gst-plugins-base -p gst_all_1.gst-plugins-bad"
      ++ " -p gst_all_1.gst-plugins-ugly -p gst_all_1.gst-libav"
      ++ " --run '"
      ++ join " "
           [ "gst-launch-1.0" : str; "srtsrc uri=srt://:5000 " : str;
             "! queue" : str; "! tsdemux" : str; "! h264parse" : str;
             "! video/x-h264" : str; "! avdec_h264" : str;
             "! autovideosink sync=false" : str ]
      ++ "'".
Proof.
  apply (command_holds_pipeline_verbatim ("srt://:5000" : str)
           (listen_view ("5000" : str))).
  - reflexivity.
  - reflexivity.
  - intros p Hp. discriminate Hp.
Defined.

(** X16.  Every built pipeline starts with [gst-launch-1.0] and one source
    element, and every stage after the source starts with the link sign
    [! ]: joined by blanks the stages read [gst-launch-1.0 src ! a ! b ...].
    A screenshare pipeline has ten entries, a view pipeline eight. *)
Theorem pipeline_shape (u : str) (args : Namespace) (stages : list str) :
  build_gst_launch_args (Some u) args = Ok stages ->
  exists source rest,
    stages = ("gst-launch-1.0" : str) :: source :: rest /\
    startswith source "! " = false /\
    Forall (fun stage => startswith stage "! " = true) rest /\
    List.length stages =
      match effective_screenshare args with Some _ => 10%nat | None => 8%nat end.
Proof.
  intros Hb.
  destruct (effective_screenshare args) as [arg |] eqn:He.
  - destruct (build_screenshare_inv u args arg stages He Hb)
      as (w & h & x & y & source & encoder & caps & sink
          & _ & Hs & Hx & Hc & Hk & ->).
    apply ximagesrc_stage_ok in Hs. apply x264enc_stage_ok in Hx.
    apply caps_stage_ok in Hc. apply srtsink_stage_ok in Hk.
    subst source encoder caps sink.
    eexists _, _. split; [reflexivity |].
    split; [reflexivity |]. split; [| reflexivity].
    repeat constructor.
  - rewrite (build_view u args He) in Hb. injection Hb as <-.
    eexists _, _. split; [reflexivity |].
    split; [reflexivity |]. split; [| reflexivity].
    repeat constructor.
Qed.

Lemma pipeline_shape_witness :
  exists source rest,
    [ "gst-launch-1.0" : str; "srtsrc uri=srt://:5000 " : str;
      "! queue" : str; "! tsdemux" : str; "! h264parse" : str;
      "! video/x-h264" : str; "! avdec_h264" : str;
      "! autovideosink sync=false" : str ]
      = ("gst-launch-1.0" : str) :: source :: rest /\
    startswith source "! " = false /\
    Forall (fun stage => startswith stage "! " = true) rest /\
    8%nat = 8%nat.
Proof.
  apply (pipeline_shape ("srt://:5000" : str) (listen_view ("5000" : str))).
  reflexivity.
Defined.

(** ** Options that a mode does not use *)

(** X17.  In view mode the pipeline depends on the URI, on the FEC flag and
    on the passphrase only: [--bitrate], [--latency] and [--fps] (and the
    [--view] flag itself) leave it unchanged. *)
Theorem view_pipeline_ignores_encoder_options
    (u : str) (args args' : Namespace) :
  effective_screenshare args = None -> effective_screenshare args' = None ->
  fec args = fec args' -> passphrase args = passphrase args' ->
  build_gst_launch_args (Some u) args = build_gst_launch_args (Some u) args'.
Proof.
  intros He He' Hfec Hpass.
  rewrite (build_view u args He), (build_view u args' He').
  unfold srtsrc_stage, passphrase_args. rewrite Hfec, Hpass. reflexivity.
Qed.

Lemma view_pipeline_ignores_encoder_options_witness :
  build_gst_launch_args (Some ("srt://:5000" : str)) (listen_view "5000")
  = build_gst_launch_args (Some ("srt://:5000" : str))
      {| listen_port := Some ("5000" : str); call := None; view := false;
         screenshare := None; screenshare_rectangle := None;
         bitrate := 64; fec := false; latency := 20; fps := 5;
         passphrase := None; print_command := true |}.
Proof.
  apply (view_pipeline_ignores_encoder_options ("srt://:5000" : str)
           (listen_view ("5000" : str))); reflexivity.
Defined.

(** X18.  Two geometries with non-negative numbers that are written as the
    same string are the same geometry: the strings offered for the displays
    tell the displays apart. *)
Theorem geometry_string_injective (g g' : Rect) :
  0 <= Width g -> 0 <= Height g -> 0 <= X g -> 0 <= Y g ->
  0 <= Width g' -> 0 <= Height g' -> 0 <= X g' -> 0 <= Y g' ->
  geometry_string g = geometry_string g' -> g = g'.
Proof.
  intros Hw Hh Hx Hy Hw' Hh' Hx' Hy' Heq.
  assert (Hgroups : forall r : Rect,
            0 <= Width r -> 0 <= Height r -> 0 <= X r -> 0 <= Y r ->
            re_match screenshare_argument_regex (geometry_string r)
            = Some [str_of_int (Width r); str_of_int (Height r);
                    str_of_int (X r); str_of_int (Y r)]).
  { intros r H1 H2 H3 H4.
    destruct (str_of_int_cases (Width r)) as [(_ & R1 & _) | (? & _)]; [| lia].
    destruct (str_of_int_cases (Height r)) as [(_ & R2 & _) | (? & _)]; [| lia].
    destruct (str_of_int_cases (X r)) as [(_ & R3 & _) | (? & _)]; [| lia].
    destruct (str_of_int_cases (Y r)) as [(_ & R4 & _) | (? & _)]; [| lia].
    pose proof (re_match_rectangle _ _ _ _ [] R1 R2 R3 R4 eq_refl) as Hre.
    rewrite app_nil_r in Hre. exact Hre. }
  pose proof (Hgroups g Hw Hh Hx Hy) as Hg.
  pose proof (Hgroups g' Hw' Hh' Hx' Hy') as Hg'.
  rewrite Heq, Hg' in Hg. injection Hg as E1 E2 E3 E4.
  assert (Hval : forall n m : Z,
            0 <= n -> 0 <= m -> str_of_int m = str_of_int n -> m = n).
  { intros n m Hn Hm E.
    destruct (str_of_int_cases n) as [(_ & _ & Vn) | (? & _)]; [| lia].
    destruct (str_of_int_cases m) as [(_ & _ & Vm) | (? & _)]; [| lia].
    rewrite <- Vn, <- Vm, E. reflexivity. }
  apply Hval in E1, E2, E3, E4; try assumption.
  destruct g, g'. simpl in *. congruence.
Qed.

Lemma geometry_string_injective_witness :
  {| Width := 1920; Height := 1080; X := 0; Y := 0 |}
  = {| Width := 1920; Height := 1080; X := 0; Y := 0 |}.
Proof.
  apply geometry_string_injective; simpl; try lia. reflexivity.
Defined.
